(** * pycheribuild.utils: configuration state, error contexts, reporting,
      connectivity probe and thread joiner

    A shallow embedding of [src/pycheribuild/utils.py].  Python code that
    mutates process-wide state, prints, or raises becomes a function
    [world -> world * outcome A]: the world holds the module globals
    ([GlobalConfig], [_ERROR_CONTEXT]), the [ConfigBase] objects by identity,
    the thread objects, and a log of everything the process did to the
    outside (console writes, socket calls, thread starts and joins). *)

From Stdlib Require Import ZArith QArith Qpower SpecFloat Ascii String List Bool Lia.
From stdpp Require Import gmap base list strings functions.

Open Scope string_scope.
Open Scope list_scope.

(** ** Exceptions and outcomes *)

(** The exception classes that the module raises or distinguishes.
    [OSError] stands for the class and its subclasses (timeouts, refused
    connections); [OtherException] is any further subclass of [Exception];
    [SystemExit], [KeyboardInterrupt] and [OtherBaseException] are the
    [BaseException]s that an [except Exception] clause lets through. *)
Inductive exn : Type :=
| ValueError (msg : string)
| AssertionError (msg : string)
| IndexError (msg : string)
| RuntimeError (msg : string)
| TypeError (msg : string)
| OSError (msg : string)
| OtherException (cls msg : string)
| SystemExit (code : Z)
| KeyboardInterrupt
| OtherBaseException (cls msg : string).

(** [isinstance(e, Exception)] *)
Definition is_Exception (e : exn) : bool :=
  match e with
  | SystemExit _ | KeyboardInterrupt | OtherBaseException _ _ => false
  | _ => true
  end.

(** [isinstance(e, OSError)] *)
Definition is_OSError (e : exn) : bool :=
  match e with
  | OSError _ => true
  | _ => false
  end.

(** [str(e)] for the exceptions whose text ends up in a message. *)
Definition str_of_exn (e : exn) : string :=
  match e with
  | ValueError m | AssertionError m | IndexError m | RuntimeError m
  | TypeError m | OSError m | OtherException _ m | OtherBaseException _ m => m
  | SystemExit _ | KeyboardInterrupt => EmptyString
  end.

Inductive outcome (A : Type) : Type :=
| Ret (a : A)
| Raise (e : exn).
Arguments Ret {A} a.
Arguments Raise {A} e.

(** ** Values stored in the configuration flags *)

(** A flag of a [ConfigBase] holds a [bool], or, until the configuration is
    initialised, an instance of the placeholder class [DoNotUseInIfStmt]. *)
Inductive pyval : Type :=
| PyBool (b : bool)
| DoNotUseInIfStmt.

(** [DoNotUseInIfStmt.__bool__] *)
Definition DoNotUseInIfStmt___bool__ : outcome bool :=
  Raise (ValueError "Should not be used").

(** [DoNotUseInIfStmt.__len__] *)
Definition DoNotUseInIfStmt___len__ : outcome Z :=
  Raise (ValueError "Should not be used").

(** The truth test Python applies in [if v], [not v], [v and w]. *)
Definition truth (v : pyval) : outcome bool :=
  match v with
  | PyBool b => Ret b
  | DoNotUseInIfStmt => DoNotUseInIfStmt___bool__
  end.

(** [len(v)]; a [bool] has no length. *)
Definition len (v : pyval) : outcome Z :=
  match v with
  | PyBool _ => Raise (TypeError "object of type 'bool' has no len()")
  | DoNotUseInIfStmt => DoNotUseInIfStmt___len__
  end.

(** ** Floats *)

(** A Python [float] is an IEEE 754 binary64 number: a [spec_float] of the
    library's specification of floating-point arithmetic, with 53 bits of
    precision and exponents below 1024.  [x + y] rounds to the nearest
    double, ties to even. *)
Definition float_add (x y : spec_float) : spec_float := SFadd 53 1024 x y.

(** [x < y] *)
Definition float_lt (x y : spec_float) : bool := SFltb x y.

(** The double that a literal such as [60.0] stands for. *)
Definition float_of_Z (z : Z) : spec_float := binary_normalize 53 1024 z 0 false.

(** [bool(x)]: a float is false when it is zero, of either sign. *)
Definition float_truth (x : spec_float) : bool :=
  match x with
  | S754_zero _ => false
  | _ => true
  end.

(** The number that a finite double stands for. *)
Definition float_Q (x : spec_float) : option Q :=
  match x with
  | S754_zero _ => Some 0%Q
  | S754_finite s m e => Some (inject_Z (cond_Zopp s (Zpos m)) * 2 ^ e)%Q
  | S754_infinity _ | S754_nan => None
  end.

(** The same number in units of [2 ^ -1074], the smallest positive double. *)
Definition float_scaled (x : spec_float) : Z :=
  match x with
  | S754_finite s m e => cond_Zopp s (Zpos m * 2 ^ (e + 1074))
  | _ => 0%Z
  end.

(** ** ConfigBase *)

Record ConfigBase : Type := mkConfigBase {
  TEST_MODE : bool;
  quiet : pyval;
  verbose : pyval;
  pretend : pyval;
  force : pyval;
  presume_connectivity : bool;
  internet_connection_last_checked_at : option spec_float;
  internet_connection_last_check_result : bool;
}.

(** [ConfigBase.__init__]; [TEST_MODE] is the class attribute, [False]. *)
Definition ConfigBase___init__ (pretend verbose quiet force : pyval) : ConfigBase :=
  {| TEST_MODE := false;
     quiet := quiet;
     verbose := verbose;
     pretend := pretend;
     force := force;
     presume_connectivity := false;
     internet_connection_last_checked_at := None;
     internet_connection_last_check_result := false |}.

Definition set_TEST_MODE (b : bool) (c : ConfigBase) : ConfigBase :=
  {| TEST_MODE := b;
     quiet := quiet c;
     verbose := verbose c;
     pretend := pretend c;
     force := force c;
     presume_connectivity := presume_connectivity c;
     internet_connection_last_checked_at := internet_connection_last_checked_at c;
     internet_connection_last_check_result := internet_connection_last_check_result c |}.

(** The two assignments at the end of [have_working_internet_connection]. *)
Definition set_last_check (at_ : spec_float) (res : bool) (c : ConfigBase) : ConfigBase :=
  {| TEST_MODE := TEST_MODE c;
     quiet := quiet c;
     verbose := verbose c;
     pretend := pretend c;
     force := force c;
     presume_connectivity := presume_connectivity c;
     internet_connection_last_checked_at := Some at_;
     internet_connection_last_check_result := res |}.

(** ** The world *)

Inductive AnsiColour : Type := red | magenta | cyan | blue | green.

Inductive event : Type :=
| Stdout (text : string)                      (* print(...) *)
| Stderr (text : string)                      (* print(..., file=sys.stderr) *)
| PrintStack                                  (* traceback.print_stack() *)
| ReadInput (prompt : string)                 (* input(prompt) *)
| SocketOpen                                  (* socket.socket(AF_INET, SOCK_STREAM) *)
| SocketSetTimeout (seconds : Z)              (* x.settimeout(timeout) *)
| SocketConnect (host : string) (port : Z)    (* x.connect((host, port)) *)
| SocketClose                                 (* x.close() *)
| ThreadStart (t : nat)                       (* thread.start() *)
| ThreadJoin (t : nat)                        (* thread.join() returned *)
| FileWrite (file : nat) (text : string).     (* print(..., file=f), f another open file *)

(** Life cycle of a [threading.Thread] object. *)
Inductive thread_status : Type := NotStarted | Running | Finished.

(** Objects are named by a number (their identity).  [heap] holds every
    [ConfigBase] object, so that two references to one object see each
    other's writes; [GlobalConfig] is the module global, a reference. *)
Record world : Type := mkWorld {
  heap : nat -> ConfigBase;
  GlobalConfig : nat;
  _ERROR_CONTEXT : list string;
  log : list event;
  thread_state : nat -> thread_status;
  thread_name : nat -> string;
}.

Definition set_heap (h : nat -> ConfigBase) (w : world) : world :=
  {| heap := h; GlobalConfig := GlobalConfig w; _ERROR_CONTEXT := _ERROR_CONTEXT w;
     log := log w; thread_state := thread_state w; thread_name := thread_name w |}.

Definition set_GlobalConfig (r : nat) (w : world) : world :=
  {| heap := heap w; GlobalConfig := r; _ERROR_CONTEXT := _ERROR_CONTEXT w;
     log := log w; thread_state := thread_state w; thread_name := thread_name w |}.

Definition set_ERROR_CONTEXT (l : list string) (w : world) : world :=
  {| heap := heap w; GlobalConfig := GlobalConfig w; _ERROR_CONTEXT := l;
     log := log w; thread_state := thread_state w; thread_name := thread_name w |}.

Definition set_log (l : list event) (w : world) : world :=
  {| heap := heap w; GlobalConfig := GlobalConfig w; _ERROR_CONTEXT := _ERROR_CONTEXT w;
     log := l; thread_state := thread_state w; thread_name := thread_name w |}.

Definition set_thread_state (s : nat -> thread_status) (w : world) : world :=
  {| heap := heap w; GlobalConfig := GlobalConfig w; _ERROR_CONTEXT := _ERROR_CONTEXT w;
     log := log w; thread_state := s; thread_name := thread_name w |}.

(** The module as imported: [GlobalConfig] is object 0, built from four
    placeholders; no error context, nothing logged, no thread started. *)
Definition initial_world : world :=
  {| heap := fun _ => ConfigBase___init__ DoNotUseInIfStmt DoNotUseInIfStmt
                                          DoNotUseInIfStmt DoNotUseInIfStmt;
     GlobalConfig := 0%nat;
     _ERROR_CONTEXT := [];
     log := [];
     thread_state := fun _ => NotStarted;
     thread_name := fun _ => "Thread" |}.

(** ** The monad of Python statements *)

Definition M (A : Type) : Type := world -> world * outcome A.

Definition ret {A} (a : A) : M A := fun w => (w, Ret a).

Definition raise {A} (e : exn) : M A := fun w => (w, Raise e).

Definition bind {A B} (m : M A) (k : A -> M B) : M B :=
  fun w =>
    match m w with
    | (w', Ret a) => k a w'
    | (w', Raise e) => (w', Raise e)
    end.

Declare Scope py_scope.
Delimit Scope py_scope with py.
Notation "'do' x <- m ; k" := (bind m (fun x => k))
  (at level 10, x name, m at level 100, k at level 200) : py_scope.
Notation "'run' m ; k" := (bind m (fun _ => k))
  (at level 10, m at level 100, k at level 200) : py_scope.

(** Lift the result of a pure query that may raise. *)
Definition lift {A} (o : outcome A) : M A := fun w => (w, o).

Definition emit (e : event) : M unit :=
  fun w => (set_log (log w ++ [e]) w, Ret tt).

(** [for x in l: f x] *)
Fixpoint for_each {A} (l : list A) (f : A -> M unit) : M unit :=
  match l with
  | [] => ret tt
  | x :: l' => bind (f x) (fun _ => for_each l' f)
  end.

Definition get {A} (f : world -> A) : M A := fun w => (w, Ret (f w)).

Definition modify (f : world -> world) : M unit := fun w => (f w, Ret tt).

(** [try: body / except <classes matched by catches> as e: handler e] *)
Definition try_except {A} (body : M A) (catches : exn -> bool) (handler : exn -> M A) : M A :=
  fun w =>
    match body w with
    | (w', Ret a) => (w', Ret a)
    | (w', Raise e) => if catches e then handler e w' else (w', Raise e)
    end.

(** [obj.attr] and [obj.attr = v] on the [ConfigBase] object [r]. *)
Definition getattr {A} (attr : ConfigBase -> A) (r : nat) : M A :=
  get (fun w => attr (heap w r)).

Definition setattr (upd : ConfigBase -> ConfigBase) (r : nat) : M unit :=
  modify (fun w => set_heap (<[r := upd (heap w r)]> (heap w)) w).

(** [a and b]: the value of [a] when it is false, else the value of [b]. *)
Definition py_and (a b : pyval) : outcome pyval :=
  match truth a with
  | Ret true => Ret b
  | Ret false => Ret a
  | Raise e => Raise e
  end.

(** [not v] *)
Definition py_not (v : outcome pyval) : outcome bool :=
  match v with
  | Ret x => match truth x with
             | Ret b => Ret (negb b)
             | Raise e => Raise e
             end
  | Raise e => Raise e
  end.

(** [assert cond, msg], with assertions enabled (no [-O]). *)
Definition assert (cond : outcome bool) (msg : string) : M unit :=
  match cond with
  | Ret true => ret tt
  | Ret false => raise (AssertionError msg)
  | Raise e => raise e
  end.

(** ** Global configuration *)

Definition init_global_config (config : nat) (test_mode : bool) : M unit :=
  (run modify (set_GlobalConfig config);
   do g <- get GlobalConfig;
   run setattr (set_TEST_MODE test_mode) g;
   do v <- getattr verbose g;
   do q <- getattr quiet g;
   assert (py_not (py_and v q)) "mutually exclusive")%py.

Definition get_global_config : M nat := get GlobalConfig.

(** ** The [with] statement and [contextlib.contextmanager] *)

(** A context manager: [__enter__], and [__exit__] applied to the exception
    in flight ([None] when the body ended normally), returning whether that
    exception is to be suppressed. *)
Record context_manager : Type := mkContextManager {
  cm_enter : M unit;
  cm_exit : option exn -> M bool;
}.

(** [with cm: body].  [__exit__] is not called when [__enter__] raises. *)
Definition with_ (cm : context_manager) (body : M unit) : M unit :=
  fun w =>
    match cm_enter cm w with
    | (w1, Raise e) => (w1, Raise e)
    | (w1, Ret _) =>
        match body w1 with
        | (w2, Ret _) =>
            match cm_exit cm None w2 with
            | (w3, Ret _) => (w3, Ret tt)
            | (w3, Raise e) => (w3, Raise e)
            end
        | (w2, Raise e) =>
            match cm_exit cm (Some e) w2 with
            | (w3, Ret true) => (w3, Ret tt)
            | (w3, Ret false) => (w3, Raise e)
            | (w3, Raise e') => (w3, Raise e')
            end
        end
    end.

(** A generator function with one [yield]: the code up to the [yield], and
    the code that runs when the generator is resumed there, by [next]
    ([None]) or by [throw(e)] ([Some e]), up to the generator's end. *)
Record generator : Type := mkGenerator {
  before_yield : M unit;
  after_yield : option exn -> M unit;
}.

(** [@contextlib.contextmanager].  On a normal exit the generator is
    resumed and [__exit__] returns [False].  On a failing exit the exception
    is thrown into the generator: when the generator then ends without
    raising, the exception is suppressed; when it raises, what it raised
    leaves the [with] statement (the thrown exception itself re-raised by
    the [with] statement, any other one raised by [__exit__]). *)
Definition contextmanager (g : generator) : context_manager :=
  {| cm_enter := before_yield g;
     cm_exit := fun exc =>
       match exc with
       | None => (run after_yield g None; ret false)%py
       | Some e => (run after_yield g (Some e); ret true)%py
       end |}.

(** ** Error context *)

(** [_ERROR_CONTEXT[-1]], when the list is not empty *)
Definition top_frame (ctx : list string) : option string := list.last ctx.

(** [_ERROR_CONTEXT.append(context)] *)
Definition ERROR_CONTEXT_append (context : string) : M unit :=
  modify (fun w => set_ERROR_CONTEXT (_ERROR_CONTEXT w ++ [context]) w).

(** [_ERROR_CONTEXT.pop()] *)
Definition ERROR_CONTEXT_pop : M unit :=
  fun w =>
    match _ERROR_CONTEXT w with
    | [] => (w, Raise (IndexError "pop from empty list"))
    | _ :: _ => (set_ERROR_CONTEXT (removelast (_ERROR_CONTEXT w)) w, Ret tt)
    end.

Definition add_error_context_generator (context : string) : generator :=
  {| before_yield := ERROR_CONTEXT_append context;
     after_yield := fun thrown =>
       try_except
         (match thrown with
          | None => ERROR_CONTEXT_pop
          | Some e => raise e
          end)
         is_Exception
         (fun e => raise e) |}.

Definition add_error_context (context : string) : context_manager :=
  contextmanager (add_error_context_generator context).

(** ** Threads *)

(** [thread.start()]: a thread object can be started once. *)
Definition start (t : nat) : M unit :=
  fun w =>
    match thread_state w t with
    | NotStarted =>
        (set_log (log w ++ [ThreadStart t])
           (set_thread_state (<[t := Running]> (thread_state w)) w), Ret tt)
    | _ => (w, Raise (RuntimeError "threads can only be started once"))
    end.

(** [thread.is_alive()].  A running thread ends on its own at a moment the
    caller does not control: [ended t] tells whether thread [t], if it is
    running, has ended by the time of this call. *)
Definition is_alive (ended : nat -> bool) (t : nat) : M bool :=
  fun w =>
    match thread_state w t with
    | Running =>
        if ended t
        then (set_thread_state (<[t := Finished]> (thread_state w)) w, Ret false)
        else (w, Ret true)
    | _ => (w, Ret false)
    end.

(** [thread.join()]: returns once the thread has ended; refused on a thread
    that was never started. *)
Definition join (t : nat) : M unit :=
  fun w =>
    match thread_state w t with
    | NotStarted => (w, Raise (RuntimeError "cannot join thread before it is started"))
    | _ =>
        (set_log (log w ++ [ThreadJoin t])
           (set_thread_state (<[t := Finished]> (thread_state w)) w), Ret tt)
    end.

Record ThreadJoiner : Type := mkThreadJoiner {
  threads : list nat;
}.

(** The constructor's argument: [None], one thread, or a list of threads. *)
Inductive threads_arg : Type :=
| ArgNone
| ArgThread (t : nat)
| ArgList (l : list nat).

Definition ThreadJoiner___init__ (arg : threads_arg) : ThreadJoiner :=
  match arg with
  | ArgList l => {| threads := l |}
  | ArgNone => {| threads := [] |}
  | ArgThread t => {| threads := [t] |}
  end.

Definition ThreadJoiner___enter__ (self : ThreadJoiner) : M unit :=
  for_each (threads self) start.

Definition ThreadJoiner___add__ (self other : ThreadJoiner) : ThreadJoiner :=
  ThreadJoiner___init__ (ArgList (threads self ++ threads other)).

(** [self.threads += other.threads; return self]: the value of [self]
    after the statement. *)
Definition ThreadJoiner___iadd__ (self other : ThreadJoiner) : ThreadJoiner :=
  {| threads := threads self ++ threads other |}.

(** ** Strings *)

Definition newline : string := String (Ascii.ascii_of_nat 10) EmptyString.

(** [not s] on a [str] *)
Definition str_is_empty (s : string) : bool :=
  match s with
  | EmptyString => true
  | String _ _ => false
  end.

(** [s.startswith(p)] *)
Definition startswith (p s : string) : bool := String.prefix p s.

(** [s.lower()] on the ASCII letters. *)
Definition lower_ascii (c : Ascii.ascii) : Ascii.ascii :=
  let n := Ascii.nat_of_ascii c in
  if (65 <=? n)%nat && (n <=? 90)%nat then Ascii.ascii_of_nat (n + 32) else c.

Fixpoint lower (s : string) : string :=
  match s with
  | EmptyString => EmptyString
  | String c s' => String (lower_ascii c) (lower s')
  end.

(** [print] of the objects [objs] with separator [sep], on standard output
    and with [file=sys.stderr]. *)
Definition print (objs : list string) (sep : string) : M unit :=
  emit (Stdout (String.concat sep objs +:+ newline)).

Definition print_stderr (objs : list string) (sep : string) : M unit :=
  emit (Stderr (String.concat sep objs +:+ newline)).

(** What a caller may pass as [file] to [print]: one of the two standard
    streams, or another open file, known by a number. *)
Inductive file_object : Type :=
| sys_stdout
| sys_stderr
| open_file (id : nat).

(** The keyword arguments of [print] besides [sep], as a caller hands them
    on in [kwargs]: each is absent or has a value ([end=None] and
    [file=None] stand for the defaults as well).  [print] takes no other
    keyword. *)
Record print_kwargs : Type := mkPrintKwargs {
  kw_end : option string;
  kw_file : option file_object;
  kw_flush : option bool;
}.

Definition no_kwargs : print_kwargs :=
  {| kw_end := None; kw_file := None; kw_flush := None |}.

(** [print] of the objects [objs] with [sep] and the keyword arguments
    [kwargs]: the text ends with [end], a line end by default, and goes
    to [file], standard output by default; flushing does not change what
    is written. *)
Definition print_with (objs : list string) (sep : string) (kwargs : print_kwargs) : M unit :=
  let text := String.concat sep objs +:+ default newline (kw_end kwargs) in
  emit (match default sys_stdout (kw_file kwargs) with
        | sys_stdout => Stdout text
        | sys_stderr => Stderr text
        | open_file id => FileWrite id text
        end).

(** [sys.exit(code)] *)
Definition sys_exit {A} (code : Z) : M A := raise (SystemExit code).

(** A colouring function that adds no escape sequence, to run the reporters
    on concrete inputs. *)
Definition plain_coloured (c : AnsiColour) (items : list string) (sep : string) : string :=
  String.concat sep items.

Definition plain_escape_sequence (c : AnsiColour) : string := EmptyString.

(** [initial_world] with every [ConfigBase] object replaced by [c]. *)
Definition world_of (c : ConfigBase) : world := set_heap (fun _ => c) initial_world.

(** A world to run the functions in: every [ConfigBase] object has been
    built with its four flags false. *)
Definition sample_world : world :=
  world_of (ConfigBase___init__ (PyBool false) (PyBool false) (PyBool false) (PyBool false)).

(** Times that the clock returns, in seconds since 1970: [1.7e9] (in
    November 2023), and the times 59.5 and 60 seconds after it. *)
Definition clock_start : spec_float := S754_finite false 7130316800000000 (-22).
Definition clock_after_59_5 : spec_float := S754_finite false 7130317049561088 (-22).


(** An exception as a failed build step raises it, an operation that
    raises it at once, and that operation run in the error context ["Y"]. *)
Definition make_failed : exn := OtherException "CalledProcessError" "make failed".

Definition failing_step : M unit := raise make_failed.

Definition failing_step_in_Y : M unit := with_ (add_error_context "Y") failing_step.

(** An exception of the probe that is not an [OSError]. *)
Definition unexpected_error : exn :=
  OtherException "UnicodeError" "encoding with 'idna' codec failed".

(** ** String and list utilities *)

(** [s[n:]] for [0 <= n] *)
Fixpoint str_from (n : nat) (s : string) : string :=
  match n, s with
  | O, _ => s
  | S n', String _ s' => str_from n' s'
  | S _, EmptyString => EmptyString
  end.

Definition remove_prefix (s prefix : string) (prefix_required : bool) : outcome string :=
  if negb (startswith prefix s) then
    if prefix_required then Raise (ValueError (s +:+ " does not start with " +:+ prefix))
    else Ret s
  else Ret (str_from (String.length prefix) s).

(** [s.replace(old, new, 1)]: the leftmost occurrence of [old] is replaced;
    an empty [old] occurs at the start (of an empty [s] too, as from
    Python 3.9 on). *)
Fixpoint str_replace_1 (old new s : string) : string :=
  if String.prefix old s then new +:+ str_from (String.length old) s
  else
    match s with
    | EmptyString => EmptyString
    | String c s' => String c (str_replace_1 old new s')
    end.

Definition replace_one (s old new : string) : outcome string :=
  let result := str_replace_1 old new s in
  if String.eqb result s then Raise (ValueError (old +:+ " not contained in " +:+ s))
  else Ret result.

(** [old] occurs in [s] with [before] in front of it, and no occurrence of
    [old] starts further left. *)
Definition leftmost_occurrence (old s before after : string) : Prop :=
  s = before +:+ old +:+ after
  /\ forall before' after',
       s = before' +:+ old +:+ after' -> (String.length before <= String.length before')%nat.

Section RemoveDuplicates.
Context {A : Type} `{EqDecision A}.

(** [dict.fromkeys(items)], as the list of its keys: a key is entered at
    the end when it is seen first and keeps its place when seen again. *)
Definition dict_fromkeys_from (keys : list A) (items : list A) : list A :=
  fold_left (fun d k => if decide (k ∈ d) then d else d ++ [k]) items keys.

Definition remove_duplicates (items : list A) : list A := dict_fromkeys_from [] items.

Definition remove_tuple_duplicates (items : list A) : list A := dict_fromkeys_from [] items.

End RemoveDuplicates.

(** [os.cpu_count()] is [None] or a number. *)
Definition default_make_jobs_count (cpu_count : option Z) : outcome Z :=
  match cpu_count with
  | None => Raise (TypeError "'>' not supported between instances of 'NoneType' and 'int'")
  | Some make_jobs => Ret (if (make_jobs >? 24)%Z then (make_jobs / 2)%Z else make_jobs)
  end.

(** ** Compositions and observations used in the properties *)

(** Nested [with add_error_context(c)] statements, outermost first, around
    [body]. *)
Definition with_error_contexts (contexts : list string) (body : M unit) : M unit :=
  foldr (fun c inner => with_ (add_error_context c) inner) body contexts.

(** Is this a write to standard error?  [traceback.print_stack()] writes
    there. *)
Definition is_stderr (e : event) : bool :=
  match e with
  | Stderr _ | PrintStack => true
  | _ => false
  end.

(** The answer that [query_yes_no] reads from a reply typed at the prompt. *)
Definition reply_answer (default_result : bool) (reply : string) : bool :=
  match reply with
  | String "n"%char _ => false
  | String "y"%char _ | String "Y"%char _ => true
  | _ => default_result
  end.

(** ** More string operations *)

(** The index of the leftmost occurrence of [sub] in [s], if there is one. *)
Fixpoint str_index (sub s : string) : option nat :=
  if String.prefix sub s then Some 0%nat
  else
    match s with
    | EmptyString => None
    | String _ s' => option_map S (str_index sub s')
    end.

(** [sub in s] *)
Definition str_contains (sub s : string) : bool :=
  match str_index sub s with
  | Some _ => true
  | None => false
  end.

(** [s.find(sub)] *)
Definition str_find (sub s : string) : Z :=
  match str_index sub s with
  | Some i => Z.of_nat i
  | None => (-1)%Z
  end.

(** [s[i:]], a negative [i] counting from the end. *)
Definition str_slice_from (i : Z) (s : string) : string :=
  if (i <? 0)%Z then str_from (Z.to_nat (Z.of_nat (String.length s) + i)) s
  else str_from (Z.to_nat i) s.


(** ** Text read from a file *)

(** The lines of a file opened with [encoding="utf-8"] are strings of
    arbitrary characters.  A [text] is such a string, as the sequence of
    its code points; [text_of s] is the text of the ASCII literal [s]. *)
Abbreviation text := (list N).

Definition text_of (s : string) : text := map N_of_ascii (list_ascii_of_string s).

Definition equals_sign : N := 61.
Definition hash_sign : N := 35.
Definition double_quote : N := 34.
Definition line_end : N := 10.

(** [c.isspace()], the characters that [strip()] removes: the ASCII white
    space and separators, NEL, the no-break space and the spaces of the
    higher planes, up to the ideographic space U+3000. *)
Definition is_space (c : N) : bool :=
  ((9 <=? c) && (c <=? 13) || (28 <=? c) && (c <=? 32) || (c =? 133) || (c =? 160)
   || (c =? 5760) || (8192 <=? c) && (c <=? 8202) || (c =? 8232) || (c =? 8233)
   || (c =? 8239) || (c =? 8287) || (c =? 12288))%N.

Fixpoint text_lstrip (strip : N -> bool) (s : text) : text :=
  match s with
  | [] => []
  | c :: s' => if strip c then text_lstrip strip s' else s
  end.

Definition text_rstrip (strip : N -> bool) (s : text) : text :=
  reverse (text_lstrip strip (reverse s)).

(** [s.strip()] with [is_space], [s.strip(chars)] with membership in [chars]. *)
Definition text_strip (strip : N -> bool) (s : text) : text :=
  text_rstrip strip (text_lstrip strip s).

(** [s.split(sep, maxsplit=1)] for a one-character [sep]: the parts around
    the leftmost [sep], or nothing when [sep] does not occur. *)
Fixpoint text_split_once (sep : N) (s : text) : option (text * text) :=
  match s with
  | [] => None
  | c :: s' =>
      if (c =? sep)%N then Some ([], s')
      else
        match text_split_once sep s' with
        | Some (k, v) => Some (c :: k, v)
        | None => None
        end
  end.

(** [s.startswith(p)] *)
Fixpoint text_startswith (p s : text) : bool :=
  match p, s with
  | [], _ => true
  | a :: p', b :: s' => (a =? b)%N && text_startswith p' s'
  | _ :: _, [] => false
  end.

(** [sub in s] *)
Fixpoint text_contains (sub s : text) : bool :=
  text_startswith sub s
  || match s with
     | [] => false
     | _ :: s' => text_contains sub s'
     end.

(** ** InstallInstructions *)

(** The message of an [InstallInstructions]: a string, or a callable that
    yields one when the hint is asked for. *)
Inductive message_source : Type :=
| MessageText (text : string)
| MessageCallable (call : M string).

Record InstallInstructions : Type := mkInstallInstructions {
  _message : message_source;
  cheribuild_target : option string;
  alternative : option string;
}.

(** [if v:] on a value that is [None] or a string. *)
Definition given (v : option string) : option string :=
  match v with
  | Some s => if str_is_empty s then None else Some s
  | None => None
  end.

Definition InstallInstructions_fixit_hint (self : InstallInstructions) : M string :=
  (do result <- match _message self with
                | MessageText text => ret text
                | MessageCallable call => call
                end;
   let result :=
     match given (cheribuild_target self) with
     | Some target =>
         (if str_is_empty result then "Run "
          else result +:+ newline +:+ "You can also try running ")
         +:+ "`cheribuild.py " +:+ target +:+ "` to install locally."
     | None => result
     end in
   match given (alternative self) with
   | Some alt =>
       run assert (Ret (negb (str_is_empty result)))
             "Can't have an alternative without a default option!";
       ret (result +:+ newline +:+ "Alternatively " +:+ alt)
   | None => ret result
   end)%py.

(** ** OSInfo *)

(** What the operating system shows to [OSInfo]: [sys.platform], the lines
    of [/etc/os-release] if the file exists (as iterating over the open
    file yields them, each with its line end), the path that
    [shutil.which("command-not-found")] finds, and the output that
    [subprocess.getoutput] gives for a command line. *)
Record os_env : Type := mkOsEnv {
  sys_platform : string;
  etc_os_release_file : option (list text);
  which_command_not_found : option string;
  getoutput : string -> string;
}.

Definition IS_LINUX (env : os_env) : bool := startswith "linux" (sys_platform env).
Definition IS_FREEBSD (env : os_env) : bool := startswith "freebsd" (sys_platform env).
Definition IS_MAC (env : os_env) : bool := startswith "darwin" (sys_platform env).

(** A computation on the class attribute [OSInfo.__os_release_cache]. *)
Definition OS (A : Type) : Type :=
  option (gmap text text) -> option (gmap text text) * outcome A.

Definition os_ret {A} (a : A) : OS A := fun cache => (cache, Ret a).

Definition os_bind {A B} (m : OS A) (k : A -> OS B) : OS B :=
  fun cache =>
    match m cache with
    | (cache', Ret a) => k a cache'
    | (cache', Raise e) => (cache', Raise e)
    end.

Declare Scope os_scope.
Delimit Scope os_scope with os.
Notation "'do' x <- m ; k" := (os_bind m (fun x => k))
  (at level 10, x name, m at level 100, k at level 200) : os_scope.

(** The loop of [OSInfo.__parse_etc_os_release] over the lines that are
    left, [d] being the dictionary built so far. *)
Fixpoint parse_os_release_lines (lines : list text) (d : gmap text text)
    : outcome (gmap text text) :=
  match lines with
  | [] => Ret d
  | line :: rest =>
      let line := text_strip is_space line in
      match line with
      | [] => parse_os_release_lines rest d
      | first :: _ =>
          if (first =? hash_sign)%N then parse_os_release_lines rest d
          else
            match text_split_once equals_sign line with
            | Some (k, v) =>
                parse_os_release_lines rest (<[k := text_strip (N.eqb double_quote) v]> d)
            | None => Raise (ValueError "not enough values to unpack (expected 2, got 1)")
            end
      end
  end.

(** Does the loop skip this line (blank, or a comment)? *)
Definition os_release_skips (line : text) : bool :=
  match text_strip is_space line with
  | [] => true
  | first :: _ => (first =? hash_sign)%N
  end.

(** The characters at which reading a text file ends a line: the line feed,
    and the carriage return, which reading turns into one. *)
Definition is_line_break (c : N) : bool := ((c =? 10) || (c =? 13))%N.

(** The line [key="value"] of an os-release file, with its line end. *)
Definition os_release_line (entry : text * text) : text :=
  fst entry ++ equals_sign :: double_quote :: snd entry ++ [double_quote; line_end].

(** A key and a value that [os_release_line] can write down: the key holds
    no [=] and starts with neither white space nor [#]; the value neither
    starts nor ends with a double quote; and neither holds a line break, so
    that the line is one line of the file. *)
Definition os_release_entry_ok (entry : text * text) : bool :=
  negb (text_contains [equals_sign] (fst entry))
  && match head (fst entry) with
     | Some c => negb (is_space c) && negb (c =? hash_sign)%N
     | None => true
     end
  && match head (snd entry) with
     | Some c => negb (c =? double_quote)%N
     | None => true
     end
  && match list.last (snd entry) with
     | Some c => negb (c =? double_quote)%N
     | None => true
     end
  && forallb (fun c => negb (is_line_break c)) (fst entry ++ snd entry).

(** Opening and decoding the file is taken to succeed. *)
Definition OSInfo___parse_etc_os_release (env : os_env) : outcome (gmap text text) :=
  match etc_os_release_file env with
  | None => Ret ∅
  | Some lines => parse_os_release_lines lines ∅
  end.

Definition OSInfo_etc_os_release (env : os_env) : OS (gmap text text) :=
  fun cache =>
    match cache with
    | Some d => (cache, Ret d)
    | None =>
        match OSInfo___parse_etc_os_release env with
        | Ret d => (Some d, Ret d)
        | Raise e => (None, Raise e)
        end
    end.

(** [d.get(key, default)] with the empty string as the default. *)
Definition dict_get (d : gmap text text) (key : text) : text :=
  default [] (d !! key).

Definition OSInfo___is_linux_distribution (env : os_env) (kind : text) : OS bool :=
  if negb (IS_LINUX env) then os_ret false
  else
    (do d <- OSInfo_etc_os_release env;
     if text_contains kind (dict_get d (text_of "ID")) then os_ret true
     else
       do d' <- OSInfo_etc_os_release env;
       os_ret (text_contains kind (dict_get d' (text_of "ID_LIKE"))))%os.

Definition OSInfo_is_ubuntu (env : os_env) : OS bool :=
  OSInfo___is_linux_distribution env (text_of "ubuntu").

Definition OSInfo_is_suse (env : os_env) : OS bool :=
  (do suse <- OSInfo___is_linux_distribution env (text_of "suse");
   if suse then os_ret true else OSInfo___is_linux_distribution env (text_of "opensuse"))%os.

Definition OSInfo_is_debian (env : os_env) : OS bool :=
  OSInfo___is_linux_distribution env (text_of "debian").

Definition OSInfo_is_cheribsd (env : os_env) : OS bool :=
  if IS_FREEBSD env then
    (do d <- OSInfo_etc_os_release env;
     os_ret (bool_decide (dict_get d (text_of "ID") = text_of "cheribsd")))%os
  else os_ret false.

Definition OSInfo_uses_apt (env : os_env) : OS bool :=
  (do debian <- OSInfo_is_debian env;
   if debian then os_ret true else OSInfo_is_ubuntu env)%os.

Definition OSInfo_uses_zypper (env : os_env) : OS bool := OSInfo_is_suse env.

Definition OSInfo_package_manager (env : os_env) (compat_abi : bool) : OS string :=
  if IS_MAC env then os_ret "brew"
  else if IS_FREEBSD env then
    (do cheribsd <- OSInfo_is_cheribsd env;
     if cheribsd then os_ret (if compat_abi then "pkg64" else "pkg64c")
     else os_ret "pkg")%os
  else if IS_LINUX env then
    (do zypper <- OSInfo_uses_zypper env;
     if zypper then os_ret "zypper"
     else
       do apt <- OSInfo_uses_apt env;
       if apt then os_ret "apt" else os_ret "<system package manager>")%os
  else os_ret "<system package manager>".

(** The callable [command_not_found] that [install_instructions] hands to
    an [InstallInstructions] on a zypper system. *)
Definition command_not_found (env : os_env) (name : string) : M string :=
  match which_command_not_found env with
  | None =>
      raise (TypeError "unsupported operand type(s) for +: 'NoneType' and 'str'")
  | Some path =>
      (let hint := getoutput env (path +:+ " " +:+ name) in
       run print [hint] " ";
       if negb (str_is_empty hint)
          && negb (str_contains (name +:+ ": command not found") hint)
       then
         let msg_start := str_find "The program" hint in
         ret (if (msg_start =? 0)%Z then hint else str_slice_from msg_start hint)
       else
         ret ("Could not find package for program " +:+ name +:+ ". Maybe `zypper in "
              +:+ name +:+ "` will work."))%py
  end.

(** The end of [install_instructions], from [if guessed_package and default:]
    on. *)
Definition install_instructions_result (env : os_env)
    (default cheribuild_target alternative : option string) (compat_abi : bool)
    (guessed_package : bool) (install_name : string) : OS InstallInstructions :=
  let '(guessed_package, install_name) :=
    match given default with
    | Some d => if guessed_package then (false, d) else (guessed_package, install_name)
    | None => (guessed_package, install_name)
    end in
  (do manager <- OSInfo_package_manager env compat_abi;
   if guessed_package then
     os_ret {| _message :=
                 MessageText ("Possibly running `" +:+ manager +:+ " install "
                              +:+ install_name
                              +:+ "` fixes this. Note: package name may not be correct.");
               cheribuild_target := cheribuild_target;
               alternative := alternative |}
   else
     os_ret {| _message :=
                 MessageText ("Run `" +:+ manager +:+ " install " +:+ install_name +:+ "`");
               cheribuild_target := cheribuild_target;
               alternative := alternative |})%os.

Definition OSInfo_install_instructions (env : os_env) (name : string) (is_lib : bool)
    (default homebrew apt zypper freebsd cheribuild_target alternative : option string)
    (compat_abi : bool) : OS InstallInstructions :=
  let finish := install_instructions_result env default cheribuild_target alternative
                  compat_abi in
  match (if IS_MAC env then given homebrew else None) with
  | Some install_name => finish false install_name
  | None =>
      match (if IS_FREEBSD env then given freebsd else None) with
      | Some install_name => finish false install_name
      | None =>
          (do uses_apt <- OSInfo_uses_apt env;
           if uses_apt then
             match given apt with
             | Some install_name => finish false install_name
             | None => finish true (if is_lib then "lib" +:+ name +:+ "-dev" else name)
             end
           else
             do uses_zypper <- OSInfo_uses_zypper env;
             if uses_zypper then
               match given zypper with
               | Some install_name => finish false install_name
               | None =>
                   if negb is_lib
                      && match given (which_command_not_found env) with
                         | Some _ => true
                         | None => false
                         end
                   then
                     os_ret {| _message := MessageCallable (command_not_found env name);
                               cheribuild_target := cheribuild_target;
                               alternative := alternative |}
                   else finish true (if is_lib then "lib" +:+ name +:+ "-devel" else name)
               end
             else finish true name)%os
      end
  end.

Definition InstallInstructions_cmake (env : os_env) : OS InstallInstructions :=
  OSInfo_install_instructions env "cmake" false (Some "cmake") (Some "cmake") (Some "cmake")
    (Some "cmake") (Some "cmake") (Some "cmake") None false.

(** ** Systems to run [OSInfo] on *)

(** A macOS without [/etc/os-release]. *)
Definition mac_env : os_env :=
  {| sys_platform := "darwin";
     etc_os_release_file := None;
     which_command_not_found := None;
     getoutput := fun _ => EmptyString |}.

(** A Linux with the given lines in [/etc/os-release], where
    [command-not-found] is installed and answers every command line with
    [output]. *)
Definition linux_env (lines : list text) (output : string) : os_env :=
  {| sys_platform := "linux";
     etc_os_release_file := Some lines;
     which_command_not_found := Some "/usr/bin/command-not-found";
     getoutput := fun _ => output |}.

(** ** Reporting *)

Section Reporting.

(** [coloured] and [AnsiColour.escape_sequence] come from the module
    [colour], which is not among the sources: [coloured c items sep] is
    [coloured(c, *items, sep=sep)], equally [coloured(c, items, sep=sep)]
    with the items in one tuple, each item given by its [str]. *)
Variable coloured : AnsiColour -> list string -> string -> string.
Variable escape_sequence : AnsiColour -> string.

Definition maybe_add_space (msg sep : string) : list string :=
  if str_is_empty sep then [msg; " "] else [msg].

Definition status_update (args : list string) (sep : string) (kwargs : print_kwargs)
    : M unit :=
  print_with [coloured cyan args sep] " " kwargs.

Definition fixit_message (args : list string) (sep : string) : M unit :=
  print_stderr [coloured blue (maybe_add_space "Possible solution:" sep ++ args) sep] " ".

(** [if fixit_hint: fixit_message(fixit_hint)], the hint being [None] or
    a string; [None] and the empty string are false. *)
Definition fixit_message_if_hint (fixit_hint : option string) : M unit :=
  match fixit_hint with
  | None => ret tt
  | Some h => if str_is_empty h then ret tt else fixit_message [h] " "
  end.

Definition warning_message (args : list string) (sep : string)
    (fixit_hint : option string) : M unit :=
  (run print_stderr [coloured magenta (maybe_add_space "Warning:" sep ++ args) sep] " ";
   fixit_message_if_hint fixit_hint)%py.

(** The string that [_add_error_context] builds when [_ERROR_CONTEXT] holds
    [ctx]. *)
Definition _add_error_context_text (ctx : list string) (prefix : string)
    (args : list string) (sep : string) : string :=
  match top_frame ctx with
  | Some top =>
      coloured red
        (maybe_add_space (prefix +:+ " " +:+ top +:+ escape_sequence red +:+ ":") sep ++ args)
        sep
  | None => coloured red (maybe_add_space (prefix +:+ ":") sep ++ args) sep
  end.

Definition _add_error_context (prefix : string) (args : list string) (sep : string) : M string :=
  (do ctx <- get _ERROR_CONTEXT;
   ret (_add_error_context_text ctx prefix args sep))%py.

Definition error_message (args : list string) (sep : string)
    (fixit_hint : option string) : M unit :=
  (do text <- _add_error_context "Error" args sep;
   run print_stderr [text] " ";
   fixit_message_if_hint fixit_hint)%py.

Definition fatal_error (args : list string) (sep : string) (fixit_hint : option string)
    (fatal_when_pretending : bool) (exit_code : Z) (pretend : pyval) : M unit :=
  (do p <- lift (truth pretend);
   if p then
     do text <- _add_error_context "Potential fatal error" args sep;
     run print_stderr [text] " ";
     run fixit_message_if_hint fixit_hint;
     if fatal_when_pretending then
       run emit PrintStack;
       sys_exit exit_code
     else ret tt
   else
     do text <- _add_error_context "Fatal error" args sep;
     run print_stderr [text] " ";
     run fixit_message_if_hint fixit_hint;
     sys_exit exit_code)%py.

(** A call that leaves [sep], [fixit_hint], [fatal_when_pretending] and
    [exit_code] at the defaults of the signature. *)
Definition fatal_error_defaults (args : list string) (pretend : pyval) : M unit :=
  fatal_error args " " None false 3 pretend.

(** [input(prompt)]: [reply] is what the user types, or the exception
    raised when standard input ends. *)
Definition input (reply : outcome string) (prompt : string) : M string :=
  (run emit (ReadInput prompt);
   lift reply)%py.

(** [isatty] is [sys.__stdin__.isatty()]; [reply] is the line that a call
    of [input] would read. *)
Definition query_yes_no (isatty : bool) (reply : outcome string)
    (config : nat) (message : string) (default_result force_result : bool)
    (yes_no_str : option string) : M bool :=
  (let yes_no_str :=
     match yes_no_str with
     | None => if default_result then " [Y]/n " else " y/[N] "
     | Some s => s
     end in
   do pretend_flag <- getattr pretend config;
   do p <- lift (truth pretend_flag);
   if p then
     run print [message +:+ yes_no_str;
                coloured green [if force_result then "y" else "n"] " "] EmptyString;
     ret force_result
   else
     do force_flag <- getattr force config;
     do f <- lift (truth force_flag);
     if f then
       run print [message +:+ yes_no_str;
                  coloured green [if force_result then "y" else "n"] " "] EmptyString;
       ret force_result
     else if negb isatty then
       ret default_result
     else
       do result <- input reply (message +:+ yes_no_str);
       if default_result then ret (negb (startswith "n" result))
       else ret (startswith "y" (lower result)))%py.

(** ** Connectivity probe *)

(** What the network does during one probe: which of the three socket
    calls of the [try] block raises, if any.  The log records each call
    that is made, whether it returns or raises. *)
Inductive probe : Type :=
| SocketRaises (e : exn)
| SetTimeoutRaises (e : exn)
| ConnectRaises (e : exn)
| Connects.

(** [if t:] on an [Optional[float]]: [None] and a zero are false. *)
Definition timestamp_set (t : option spec_float) : bool :=
  match t with
  | None => false
  | Some x => float_truth x
  end.

(** The local variables [x] (is a socket bound to it?) and [result] of
    [have_working_internet_connection]. *)
Record probe_locals : Type := mkProbeLocals {
  local_x : bool;
  local_result : bool;
}.

(** The [try] block with its two [except] clauses, from [x = None] and
    [result = False]: the world and the locals it leaves, and the exception
    still in flight when the [finally] block starts, if any. *)
Definition probe_try (net : probe) (config : nat) (w : world)
    : world * probe_locals * option exn :=
  let host := "8.8.8.8" in
  let port := 53%Z in
  let timeout := 3%Z in
  let '(w1, locals, raised) :=
    match net with
    | SocketRaises e =>
        (set_log (log w ++ [SocketOpen]) w, {| local_x := false; local_result := false |}, Some e)
    | SetTimeoutRaises e =>
        (set_log (log w ++ [SocketOpen; SocketSetTimeout timeout]) w,
         {| local_x := true; local_result := false |}, Some e)
    | ConnectRaises e =>
        (set_log (log w ++ [SocketOpen; SocketSetTimeout timeout; SocketConnect host port]) w,
         {| local_x := true; local_result := false |}, Some e)
    | Connects =>
        (set_log (log w ++ [SocketOpen; SocketSetTimeout timeout; SocketConnect host port]) w,
         {| local_x := true; local_result := true |}, None)
    end in
  match raised with
  | None => (w1, locals, None)
  | Some ex =>
      if is_OSError ex then
        (w1, {| local_x := local_x locals; local_result := false |}, None)
      else if is_Exception ex then
        match fatal_error_defaults
                ["Something went wrong while checking for internet connection"; str_of_exn ex]
                (pretend (heap w1 config)) w1 with
        | (w2, Ret _) => (w2, {| local_x := local_x locals; local_result := false |}, None)
        | (w2, Raise e) => (w2, locals, Some e)
        end
      else (w1, locals, Some ex)
  end.

(** [now] is the value of [time.time()] in this call, a float in seconds;
    [net] is what the network does if the call probes.  Closing the socket
    is taken to succeed.  The [return] of the [finally] block ends the call
    whatever exception is in flight. *)
Definition have_working_internet_connection (now : spec_float) (net : probe) (config : nat)
    : M bool :=
  fun w =>
    if TEST_MODE (heap w config) || presume_connectivity (heap w config) then (w, Ret true)
    else
      let current_check_time := now in
      if timestamp_set (internet_connection_last_checked_at (heap w config))
         && match internet_connection_last_checked_at (heap w config) with
            | Some last_checked_at =>
                float_lt current_check_time (float_add last_checked_at (float_of_Z 60))
            | None => false
            end
      then (w, Ret (internet_connection_last_check_result (heap w config)))
      else
        let '(w1, locals, _) := probe_try net config w in
        (* finally: *)
        let w2 := if local_x locals then set_log (log w1 ++ [SocketClose]) w1 else w1 in
        let w3 := set_heap (<[config := set_last_check current_check_time (local_result locals)
                                          (heap w2 config)]> (heap w2)) w2 in
        (w3, Ret (local_result locals)).

(** ** ThreadJoiner: leaving the scope *)

(** The body of the loop of [ThreadJoiner.__exit__]. *)
Definition wait_for (ended : nat -> bool) (thread : nat) : M unit :=
  (do alive <- is_alive ended thread;
   run (if alive then
          do name <- get (fun w => thread_name w thread);
          status_update ["Waiting for '"; name; "' to complete"] EmptyString no_kwargs
        else ret tt);
   join thread)%py.

(** [ThreadJoiner.__exit__]; it returns [None], so an exception of the
    scope body is not suppressed. *)
Definition ThreadJoiner___exit__ (ended : nat -> bool) (self : ThreadJoiner)
    (exc : option exn) : M bool :=
  (run for_each (threads self) (wait_for ended);
   ret false)%py.

(** A [ThreadJoiner] used as the context manager of a [with] statement. *)
Definition ThreadJoiner_scope (ended : nat -> bool) (self : ThreadJoiner) : context_manager :=
  {| cm_enter := ThreadJoiner___enter__ self;
     cm_exit := ThreadJoiner___exit__ ended self |}.

(** What [ThreadJoiner.__exit__] does to the outside for the threads [ts],
    when the thread states are [st] as the scope body ends: for each thread
    in turn, the waiting line if it is still running, then the join. *)
Definition exit_trace (ended : nat -> bool) (st : nat -> thread_status)
    (names : nat -> string) (ts : list nat) : list event :=
  flat_map
    (fun t =>
       match st t with
       | Running =>
           if ended t then [ThreadJoin t]
           else [Stdout (coloured cyan ["Waiting for '"; names t; "' to complete"] EmptyString
                         +:+ newline);
                 ThreadJoin t]
       | _ => [ThreadJoin t]
       end)
    ts.

(** The [Possible solution:] line that follows a message with a hint. *)
Definition fixit_trace (fixit_hint : option string) : list event :=
  match fixit_hint with
  | None => []
  | Some h =>
      if str_is_empty h then []
      else [Stderr (coloured blue ["Possible solution:"; h] " " +:+ newline)]
  end.

(** What [init_global_config] leaves behind, whether or not the assertion
    holds: the global names [config], whose [TEST_MODE] is [test_mode]. *)
Definition initialised (config : nat) (test_mode : bool) (w : world) : world :=
  set_heap (<[config := set_TEST_MODE test_mode (heap w config)]> (heap w))
    (set_GlobalConfig config w).

(** * Properties *)

(** ** Reporting *)

Lemma fixit_message_if_hint_log (fixit_hint : option string) (w : world) :
  fixit_message_if_hint fixit_hint w = (set_log (log w ++ fixit_trace fixit_hint) w, Ret tt).
Proof.
  destruct w as [h g ctx l st nm].
  destruct fixit_hint as [hint|]; cbn.
  - destruct hint; cbn; [now rewrite app_nil_r | reflexivity].
  - now rewrite app_nil_r.
Qed.

Lemma _add_error_context_run (prefix : string) (args : list string) (sep : string) (w : world) :
  _add_error_context prefix args sep w
  = (w, Ret (_add_error_context_text (_ERROR_CONTEXT w) prefix args sep)).
Proof. reflexivity. Qed.

(** One run of [fatal_error] in pretend mode, and one outside it. *)
Lemma fatal_error_pretending (args : list string) (sep : string)
    (fixit_hint : option string) (fatal_when_pretending : bool) (exit_code : Z) (w : world) :
  fatal_error args sep fixit_hint fatal_when_pretending exit_code (PyBool true) w
  = (set_log
       (log w
        ++ Stderr (_add_error_context_text (_ERROR_CONTEXT w) "Potential fatal error" args sep
                   +:+ newline)
           :: fixit_trace fixit_hint
        ++ (if fatal_when_pretending then [PrintStack] else []))
       w,
     if fatal_when_pretending then Raise (SystemExit exit_code) else Ret tt).
Proof.
  unfold fatal_error, bind, lift, truth, print_stderr, emit, sys_exit, raise, ret.
  rewrite _add_error_context_run, fixit_message_if_hint_log.
  destruct fatal_when_pretending; cbn; rewrite <- !app_assoc; cbn;
    rewrite ?app_nil_r; reflexivity.
Qed.

Lemma fatal_error_not_pretending (args : list string) (sep : string)
    (fixit_hint : option string) (fatal_when_pretending : bool) (exit_code : Z) (w : world) :
  fatal_error args sep fixit_hint fatal_when_pretending exit_code (PyBool false) w
  = (set_log
       (log w
        ++ Stderr (_add_error_context_text (_ERROR_CONTEXT w) "Fatal error" args sep
                   +:+ newline)
           :: fixit_trace fixit_hint)
       w,
     Raise (SystemExit exit_code)).
Proof.
  unfold fatal_error, bind, lift, truth, print_stderr, emit, sys_exit, raise, ret.
  rewrite _add_error_context_run, fixit_message_if_hint_log.
  cbn. rewrite <- !app_assoc. reflexivity.
Qed.

(** C1.  For all arguments, separator, fixit hint and exit code, in every
    world.  The line that [fatal_error] prints on standard error is the
    coloured list that starts with the headline, [Potential fatal error:]
    in pretend mode and [Fatal error:] outside it (with the innermost error
    context before the colon when there is one), followed by the arguments
    of the call.  With [pretend] true and [fatal_when_pretending] false,
    [fatal_error] prints the [Potential fatal error] line (and the hint
    line, if a hint is given) and returns; with [pretend] and
    [fatal_when_pretending] both true it prints the same, then the call
    stack, and raises [SystemExit] with the given exit code; with [pretend]
    false it prints the [Fatal error] line and raises [SystemExit] with the
    given exit code, whatever [fatal_when_pretending] is; and a call that
    does not pass an exit code exits with 3. *)
Theorem fatal_error_contract (args : list string) (sep : string)
    (fixit_hint : option string) (exit_code : Z) (w : world) :
  let headline prefix :=
    match list.last (_ERROR_CONTEXT w) with
    | Some innermost => prefix +:+ " " +:+ innermost +:+ escape_sequence red +:+ ":"
    | None => prefix +:+ ":"
    end in
  let line prefix line_sep :=
    Stderr (coloured red
              (headline prefix :: (if str_is_empty line_sep then [" "] else []) ++ args)
              line_sep
            +:+ newline) in
  fatal_error args sep fixit_hint false exit_code (PyBool true) w
  = (set_log (log w ++ line "Potential fatal error" sep :: fixit_trace fixit_hint) w, Ret tt)
  /\ fatal_error args sep fixit_hint true exit_code (PyBool true) w
     = (set_log
          (log w ++ line "Potential fatal error" sep :: fixit_trace fixit_hint ++ [PrintStack])
          w,
        Raise (SystemExit exit_code))
  /\ (forall fatal_when_pretending,
        fatal_error args sep fixit_hint fatal_when_pretending exit_code (PyBool false) w
        = (set_log (log w ++ line "Fatal error" sep :: fixit_trace fixit_hint) w,
           Raise (SystemExit exit_code)))
  /\ fatal_error_defaults args (PyBool false) w
     = (set_log (log w ++ [line "Fatal error" " "]) w, Raise (SystemExit 3)).
Proof.
  intros headline line.
  assert (Htext : forall prefix line_sep,
             Stderr (_add_error_context_text (_ERROR_CONTEXT w) prefix args line_sep +:+ newline)
             = line prefix line_sep).
  { intros prefix line_sep. unfold line, headline, _add_error_context_text, top_frame,
      maybe_add_space.
    destruct (list.last (_ERROR_CONTEXT w)); destruct (str_is_empty line_sep); reflexivity. }
  split; [|split; [|split]].
  - rewrite fatal_error_pretending, Htext. now rewrite app_nil_r.
  - rewrite fatal_error_pretending, Htext. reflexivity.
  - intros fatal_when_pretending. rewrite fatal_error_not_pretending, Htext. reflexivity.
  - unfold fatal_error_defaults. rewrite fatal_error_not_pretending, Htext. reflexivity.
Qed.

(** ** Error context *)

Lemma ERROR_CONTEXT_pop_pushed (ctx : list string) (context : string) (w : world) :
  _ERROR_CONTEXT w = ctx ++ [context] ->
  ERROR_CONTEXT_pop w = (set_ERROR_CONTEXT ctx w, Ret tt).
Proof.
  intros E. unfold ERROR_CONTEXT_pop. rewrite E.
  rewrite removelast_last.
  destruct ctx; reflexivity.
Qed.

(** Leaving the scope after a failure: the generator re-raises what was
    thrown into it, whether or not its [except Exception] clause matches. *)
Lemma add_error_context_exit_failure (context : string) (e : exn) (w : world) :
  cm_exit (add_error_context context) (Some e) w = (w, Raise e).
Proof.
  unfold add_error_context, contextmanager, add_error_context_generator; cbn.
  unfold bind, try_except, raise.
  destruct (is_Exception e); reflexivity.
Qed.

Lemma add_error_context_exit_normal (context : string) (w : world) :
  cm_exit (add_error_context context) None w
  = match _ERROR_CONTEXT w with
    | [] => (w, Raise (IndexError "pop from empty list"))
    | _ :: _ => (set_ERROR_CONTEXT (removelast (_ERROR_CONTEXT w)) w, Ret false)
    end.
Proof.
  unfold add_error_context, contextmanager, add_error_context_generator; cbn.
  unfold bind, try_except, raise, ERROR_CONTEXT_pop, ret.
  destruct (_ERROR_CONTEXT w); reflexivity.
Qed.

(** C2, as the code has it.  Let the wrapped operation, started with
    [context] pushed, end in world [w2] with outcome [ob].  For every
    operation: when it fails, the [with] statement fails with the same
    exception and leaves the world as the operation left it (nothing is
    popped); when it ends normally, the last frame of the stack as the
    operation left it is popped.  For an operation that leaves the stack as
    it found it: a normal exit gives back the stack from before the [with]
    statement, and after a failure [context] is the top frame. *)
Theorem add_error_context_scope (context : string) (body : M unit)
    (w w2 : world) (ob : outcome unit) :
  body (set_ERROR_CONTEXT (_ERROR_CONTEXT w ++ [context]) w) = (w2, ob) ->
  match ob with
  | Raise e => with_ (add_error_context context) body w = (w2, Raise e)
  | Ret _ =>
      with_ (add_error_context context) body w
      = match _ERROR_CONTEXT w2 with
        | [] => (w2, Raise (IndexError "pop from empty list"))
        | _ :: _ => (set_ERROR_CONTEXT (removelast (_ERROR_CONTEXT w2)) w2, Ret tt)
        end
  end
  /\ (_ERROR_CONTEXT w2 = _ERROR_CONTEXT w ++ [context] ->
      match ob with
      | Ret _ =>
          with_ (add_error_context context) body w
          = (set_ERROR_CONTEXT (_ERROR_CONTEXT w) w2, Ret tt)
      | Raise e =>
          with_ (add_error_context context) body w = (w2, Raise e)
          /\ top_frame (_ERROR_CONTEXT w2) = Some context
      end).
Proof.
  intros Hbody.
  assert (Hrun : with_ (add_error_context context) body w
                 = match ob with
                   | Ret _ =>
                       match cm_exit (add_error_context context) None w2 with
                       | (w3, Ret _) => (w3, Ret tt)
                       | (w3, Raise e) => (w3, Raise e)
                       end
                   | Raise e =>
                       match cm_exit (add_error_context context) (Some e) w2 with
                       | (w3, Ret true) => (w3, Ret tt)
                       | (w3, Ret false) => (w3, Raise e)
                       | (w3, Raise e') => (w3, Raise e')
                       end
                   end).
  { unfold with_. cbn [cm_enter add_error_context contextmanager
                       add_error_context_generator before_yield].
    unfold ERROR_CONTEXT_append, modify. rewrite Hbody.
    destruct ob; reflexivity. }
  destruct ob as [[]|e].
  - rewrite add_error_context_exit_normal in Hrun. split.
    + rewrite Hrun. destruct (_ERROR_CONTEXT w2); reflexivity.
    + intros Hstack. rewrite Hrun, Hstack, removelast_last.
      destruct (_ERROR_CONTEXT w); reflexivity.
  - rewrite add_error_context_exit_failure in Hrun. split; [exact Hrun|].
    intros Hstack. split; [exact Hrun|].
    rewrite Hstack. apply last_snoc.
Qed.

(** ** Global configuration *)

Lemma init_global_config_run (config : nat) (test_mode : bool) (w : world) :
  init_global_config config test_mode w
  = (initialised config test_mode w,
     match py_not (py_and (verbose (heap w config)) (quiet (heap w config))) with
     | Ret true => Ret tt
     | Ret false => Raise (AssertionError "mutually exclusive")
     | Raise e => Raise e
     end).
Proof.
  unfold init_global_config, bind, modify, get, getattr, setattr, assert, initialised.
  cbn. rewrite !fn_lookup_insert. cbn.
  destruct (py_not _) as [[|]|]; reflexivity.
Qed.

(** C3.  In the module as imported, the truth test and [len] of each of
    the four flags of [get_global_config()] raise [ValueError]; and after
    [init_global_config(config)], from any world and with any test mode,
    [get_global_config()] is [config] and each of its four flags is what
    [config] held. *)
Theorem global_config_flags (config : nat) (test_mode : bool) (w : world) :
  Forall
    (fun flag : ConfigBase -> pyval =>
       exists g,
         get_global_config initial_world = (initial_world, Ret g)
         /\ truth (flag (heap initial_world g)) = Raise (ValueError "Should not be used")
         /\ len (flag (heap initial_world g)) = Raise (ValueError "Should not be used"))
    [pretend; verbose; quiet; force]
  /\ exists w' o,
       init_global_config config test_mode w = (w', o)
       /\ get_global_config w' = (w', Ret config)
       /\ Forall
            (fun flag : ConfigBase -> pyval => flag (heap w' config) = flag (heap w config))
            [pretend; verbose; quiet; force].
Proof.
  split.
  - repeat constructor; exists 0%nat; repeat split.
  - eexists _, _. rewrite init_global_config_run. split; [reflexivity|].
    split; [reflexivity|].
    unfold initialised; cbn. rewrite fn_lookup_insert.
    repeat constructor.
Qed.

(** C4.  For a configuration whose [verbose] and [quiet] flags are
    booleans: [init_global_config] raises [AssertionError] when both are
    true and returns normally when at most one is. *)
Theorem init_global_config_mutually_exclusive (config : nat) (test_mode : bool)
    (w : world) (v q : bool) :
  verbose (heap w config) = PyBool v ->
  quiet (heap w config) = PyBool q ->
  snd (init_global_config config test_mode w)
  = if v && q then Raise (AssertionError "mutually exclusive") else Ret tt.
Proof.
  intros Hv Hq. rewrite init_global_config_run, Hv, Hq.
  destruct v, q; reflexivity.
Qed.

(** C8, as the code has it.  [init_global_config] has no guard on a
    configuration being installed already: from every world, whatever was
    installed before and whatever test mode is or was in force, the call
    makes [config] the global instance and sets its [TEST_MODE] to
    [test_mode]; whether it then returns or raises depends on the flags of
    [config] alone. *)
Theorem init_global_config_always_replaces (config : nat) (test_mode : bool) (w : world) :
  exists w' o,
    init_global_config config test_mode w = (w', o)
    /\ GlobalConfig w' = config
    /\ TEST_MODE (heap w' config) = test_mode
    /\ o = snd (assert (py_not (py_and (verbose (heap w config)) (quiet (heap w config))))
                   "mutually exclusive" w').
Proof.
  eexists _, _. rewrite !init_global_config_run. split; [reflexivity|].
  unfold initialised; cbn. rewrite fn_lookup_insert. repeat split.
  unfold assert. destruct (py_not _) as [[|]|]; reflexivity.
Qed.

(** ** Interactive confirmation *)

(** C10.  In pretend mode, and in force mode when not pretending,
    [query_yes_no] prints the prompt followed by the answer [y] or [n] that
    stands for [force_result] and returns [force_result], whatever the
    default, the terminal and the pending input are, and reads nothing;
    when neither mode is on and standard input is not a terminal it
    returns [default_result] and leaves the world untouched. *)
Theorem query_yes_no_contract (isatty : bool) (reply : outcome string) (config : nat)
    (message : string) (default_result force_result : bool) (yes_no_str : option string)
    (w : world) :
  let shown :=
    match yes_no_str with
    | None => if default_result then " [Y]/n " else " y/[N] "
    | Some s => s
    end in
  let answered :=
    set_log
      (log w ++ [Stdout (((message +:+ shown)
                          +:+ coloured green [if force_result then "y" else "n"] " ")
                         +:+ newline)]) w in
  (pretend (heap w config) = PyBool true ->
   query_yes_no isatty reply config message default_result force_result yes_no_str w
   = (answered, Ret force_result))
  /\ (pretend (heap w config) = PyBool false ->
      force (heap w config) = PyBool true ->
      query_yes_no isatty reply config message default_result force_result yes_no_str w
      = (answered, Ret force_result))
  /\ (pretend (heap w config) = PyBool false ->
      force (heap w config) = PyBool false ->
      query_yes_no false reply config message default_result force_result yes_no_str w
      = (w, Ret default_result)).
Proof.
  intros shown answered.
  unfold query_yes_no, bind, getattr, get, lift, print, emit, ret; cbn.
  repeat split.
  - intros ->. reflexivity.
  - intros Hp Hf. rewrite Hp; cbn. rewrite Hf. reflexivity.
  - intros Hp Hf. rewrite Hp; cbn. rewrite Hf. reflexivity.
Qed.

(** ** ThreadJoiner: concatenation *)

(** C9.  The thread list of [a + b] is the thread list of [a] followed by
    that of [b]; the same holds for [a] after [a += b]. *)
Theorem ThreadJoiner_concatenation (a b : ThreadJoiner) :
  threads (ThreadJoiner___add__ a b) = threads a ++ threads b
  /\ threads (ThreadJoiner___iadd__ a b) = threads a ++ threads b.
Proof. split; reflexivity. Qed.

(** ** Connectivity probe *)

(** *** Doubles *)

Lemma digits2_pos_size (p : positive) : digits2_pos p = Pos.size p.
Proof. induction p as [p IH|p IH|]; cbn; congruence. Qed.

Lemma digits2_pos_bounds (p : positive) :
  (2 ^ (Zpos (digits2_pos p) - 1) <= Zpos p < 2 ^ Zpos (digits2_pos p))%Z.
Proof.
  rewrite digits2_pos_size.
  pose proof (Pos.size_gt p) as Hgt. pose proof (Pos.size_le p) as Hle.
  apply Pos2Z.pos_lt_pos in Hgt. apply Pos2Z.pos_le_pos in Hle.
  rewrite Pos2Z.inj_pow in Hgt, Hle.
  replace (Zpos (Pos.size p)) with (Zpos (Pos.size p) - 1 + 1)%Z in Hle at 1 by lia.
  rewrite Z.pow_add_r in Hle by lia.
  change (Zpos p~0) with (2 * Zpos p)%Z in Hle.
  change (Z.pos 2) with 2%Z in *. lia.
Qed.

Lemma digits2_pos_unique (p : positive) (n : Z) :
  (2 ^ (n - 1) <= Zpos p < 2 ^ n)%Z -> Zpos (digits2_pos p) = n.
Proof.
  intros [Hlo Hhi]. pose proof (digits2_pos_bounds p) as [Hlo' Hhi'].
  assert (0 < n)%Z.
  { destruct (Z.ltb_spec 0 n) as [|Hn]; [assumption|].
    destruct (Z.eq_dec n 0%Z) as [->|]; [cbn in Hhi; lia|].
    rewrite Z.pow_neg_r in Hhi by lia. lia. }
  assert (Zpos (digits2_pos p) - 1 < n)%Z.
  { apply (Z.pow_lt_mono_r_iff 2); lia. }
  assert (n - 1 < Zpos (digits2_pos p))%Z.
  { apply (Z.pow_lt_mono_r_iff 2); lia. }
  lia.
Qed.

(** What [valid_binary] says of a finite double. *)
Lemma bounded_double (m : positive) (e : Z) :
  bounded 53 1024 m e = true ->
  (-1074 <= e <= 971)%Z
  /\ (Zpos m < 2 ^ 53)%Z
  /\ (-1074 < e -> Zpos (digits2_pos m) = 53%Z /\ 2 ^ 52 <= Zpos m)%Z.
Proof.
  unfold bounded, canonical_mantissa, fexp, emin.
  intros H. apply andb_prop in H as [Hc He].
  apply Z.eqb_eq in Hc. apply Z.leb_le in He.
  pose proof (digits2_pos_bounds m) as [Hlo Hhi].
  change (3 - 1024 - 53)%Z with (-1074)%Z in Hc. change (1024 - 53)%Z with 971%Z in He.
  assert (Hd : (Zpos (digits2_pos m) <= 53)%Z) by lia.
  split; [lia|]. split.
  - eapply Z.lt_le_trans; [exact Hhi|]. apply Z.pow_le_mono_r; lia.
  - intros Hn. assert (Hd53 : Zpos (digits2_pos m) = 53%Z) by lia.
    split; [exact Hd53|]. rewrite Hd53 in Hlo. exact Hlo.
Qed.

Lemma scaled_exponent_lt (m1 m2 : positive) (e1 e2 : Z) :
  bounded 53 1024 m1 e1 = true -> bounded 53 1024 m2 e2 = true ->
  (e1 < e2)%Z ->
  (Zpos m1 * 2 ^ (e1 + 1074) < Zpos m2 * 2 ^ (e2 + 1074))%Z.
Proof.
  intros H1 H2 Hlt.
  apply bounded_double in H1 as (He1 & Hm1 & _).
  apply bounded_double in H2 as (He2 & _ & Hm2).
  assert (Hn : (-1074 < e2)%Z) by lia. apply Hm2 in Hn as [_ Hm2'].
  replace (e2 + 1074)%Z with ((e2 - e1 - 1) + 1 + (e1 + 1074))%Z by lia.
  rewrite (Z.pow_add_r 2 (e2 - e1 - 1 + 1) (e1 + 1074)), (Z.pow_add_r 2 (e2 - e1 - 1) 1) by lia.
  assert (0 < 2 ^ (e1 + 1074))%Z by (apply Z.pow_pos_nonneg; lia).
  assert (0 < 2 ^ (e2 - e1 - 1))%Z by (apply Z.pow_pos_nonneg; lia).
  change (2 ^ 1)%Z with 2%Z. change (2 ^ 53)%Z with (2 * 2 ^ 52)%Z in Hm1.
  set (A := (2 ^ (e1 + 1074))%Z) in *. set (B := (2 ^ (e2 - e1 - 1))%Z) in *.
  set (P := (2 ^ 52)%Z) in *.
  apply Z.lt_le_trans with (2 * P * A)%Z; [apply Z.mul_lt_mono_pos_r; lia|].
  apply Z.le_trans with (Zpos m2 * (1 * 2 * A))%Z; [nia|].
  apply Z.mul_le_mono_nonneg_l; [lia|]. apply Z.mul_le_mono_nonneg_r; [lia|]. lia.
Qed.

Lemma float_lt_scaled (x y : spec_float) :
  valid_binary 53 1024 x = true -> valid_binary 53 1024 y = true ->
  is_Some (float_Q x) -> is_Some (float_Q y) ->
  float_lt x y = (float_scaled x <? float_scaled y)%Z.
Proof.
  intros Hx Hy [qx Hqx] [qy Hqy].
  destruct x as [sx|sx| |sx mx ex]; try discriminate Hqx;
    destruct y as [sy|sy| |sy my ey]; try discriminate Hqy;
    unfold float_lt, SFltb, SFcompare, float_scaled; clear Hqx Hqy.
  - reflexivity.
  - assert (0 < Zpos my * 2 ^ (ey + 1074))%Z.
    { apply Z.mul_pos_pos; [lia|]. apply Z.pow_pos_nonneg; [lia|].
      apply bounded_double in Hy. lia. }
    destruct sy; cbn [cond_Zopp]; symmetry; [apply Z.ltb_ge | apply Z.ltb_lt]; lia.
  - assert (0 < Zpos mx * 2 ^ (ex + 1074))%Z.
    { apply Z.mul_pos_pos; [lia|]. apply Z.pow_pos_nonneg; [lia|].
      apply bounded_double in Hx. lia. }
    destruct sx; cbn [cond_Zopp]; symmetry; [apply Z.ltb_lt | apply Z.ltb_ge]; lia.
  - cbn [valid_binary] in Hx, Hy.
    assert (Hpx : (0 < Zpos mx * 2 ^ (ex + 1074))%Z).
    { apply Z.mul_pos_pos; [lia|]. apply Z.pow_pos_nonneg; [lia|].
      apply bounded_double in Hx. lia. }
    assert (Hpy : (0 < Zpos my * 2 ^ (ey + 1074))%Z).
    { apply Z.mul_pos_pos; [lia|]. apply Z.pow_pos_nonneg; [lia|].
      apply bounded_double in Hy. lia. }
    assert (Hcmp : (Zpos mx * 2 ^ (ex + 1074) ?= Zpos my * 2 ^ (ey + 1074))%Z
                   = match (ex ?= ey)%Z with
                     | Lt => Lt
                     | Gt => Gt
                     | Eq => Pos.compare_cont Eq mx my
                     end).
    { destruct (Z.compare_spec ex ey) as [->|Hlt|Hgt].
      - change (Pos.compare_cont Eq mx my) with (mx ?= my)%positive.
        destruct (Pos.compare_spec mx my) as [->|Hm|Hm].
        + apply Z.compare_refl.
        + apply Z.compare_lt_iff, Z.mul_lt_mono_pos_r; lia.
        + apply Z.compare_gt_iff, Z.mul_lt_mono_pos_r; lia.
      - apply Z.compare_lt_iff. now apply scaled_exponent_lt.
      - apply Z.compare_gt_iff. now apply scaled_exponent_lt. }
    destruct sx, sy; cbn [cond_Zopp].
    + unfold Z.ltb. rewrite Z.compare_opp.
      rewrite (Z.compare_antisym (Zpos mx * 2 ^ (ex + 1074)) (Zpos my * 2 ^ (ey + 1074))), Hcmp.
      now destruct (ex ?= ey)%Z; [destruct (Pos.compare_cont Eq mx my)| |].
    + symmetry. apply Z.ltb_lt. lia.
    + symmetry. apply Z.ltb_ge. lia.
    + rewrite <- Hcmp. unfold Z.ltb. now destruct (_ ?= _)%Z.
Qed.

(** *** Addition without rounding *)

Lemma iter_pos_iter {A} (f : A -> A) (n : positive) (x : A) :
  SpecFloat.iter_pos f n x = Pos.iter f x n.
Proof.
  revert x. induction n as [n IH|n IH|]; intros x; cbn.
  - rewrite !IH. now rewrite <- !Pos.iter_swap.
  - now rewrite !IH.
  - reflexivity.
Qed.

Lemma shift_left_Z (m d : positive) : Zpos (Pos.iter xO m d) = (Zpos m * 2 ^ Zpos d)%Z.
Proof.
  induction d as [|d IH] using Pos.peano_ind.
  - cbn. lia.
  - rewrite Pos.iter_succ, Pos2Z.inj_succ, Z.pow_succ_r by lia.
    change (Zpos (Pos.iter xO m d)~0) with (2 * Zpos (Pos.iter xO m d))%Z.
    rewrite IH. lia.
Qed.

Lemma shift_right_exact (d : positive) (z : positive) :
  Pos.iter shr_1 {| shr_m := Zpos z * 2 ^ Zpos d; shr_r := false; shr_s := false |} d
  = {| shr_m := Zpos z; shr_r := false; shr_s := false |}.
Proof.
  induction d as [|d IH] using Pos.peano_ind.
  - change (2 ^ 1)%Z with 2%Z. replace (Zpos z * 2)%Z with (Zpos z~0) by lia. reflexivity.
  - rewrite Pos.iter_succ_r, Pos2Z.inj_succ, Z.pow_succ_r by lia.
    rewrite <- IH. f_equal.
    assert (Hpos : exists q, (Zpos z * 2 ^ Zpos d)%Z = Zpos q).
    { exists (z * 2 ^ d)%positive. now rewrite Pos2Z.inj_mul, Pos2Z.inj_pow. }
    destruct Hpos as [q Hq].
    replace (Zpos z * (2 * 2 ^ Zpos d))%Z with (Zpos q~0) by lia.
    rewrite Hq. reflexivity.
Qed.

(** Rounding a number that fits: [m * 2 ^ d] with [m] of 53 bits rounds to
    [m] at the exponent raised by [d]. *)
Lemma binary_round_exact (s m d : positive) (e : Z) :
  Zpos s = (Zpos m * 2 ^ Zpos d)%Z ->
  Zpos (digits2_pos m) = 53%Z ->
  (-1074 <= e + Zpos d <= 971)%Z ->
  binary_round 53 1024 false s e = S754_finite false m (e + Zpos d).
Proof.
  intros Hs Hm He.
  assert (Hds : Zpos (digits2_pos s) = (53 + Zpos d)%Z).
  { apply digits2_pos_unique. rewrite Hs.
    pose proof (digits2_pos_bounds m) as [Hlo Hhi]. rewrite Hm in Hlo, Hhi.
    replace (53 + Zpos d - 1)%Z with (52 + Zpos d)%Z by lia.
    rewrite !Z.pow_add_r by lia.
    assert (0 < 2 ^ Zpos d)%Z by (apply Z.pow_pos_nonneg; lia).
    change (53 - 1)%Z with 52%Z in Hlo.
    split; [apply Z.mul_le_mono_nonneg_r | apply Z.mul_lt_mono_pos_r]; lia. }
  assert (Hfexp : fexp 53 1024 (Zpos (digits2_pos s) + e) = (e + Zpos d)%Z).
  { unfold fexp, emin. rewrite Hds. change (3 - 1024 - 53)%Z with (-1074)%Z. lia. }
  unfold binary_round. rewrite Hfexp.
  unfold shl_align.
  replace (e + Zpos d - e)%Z with (Zpos d) by lia.
  unfold binary_round_aux, shr_fexp.
  cbn [Zdigits2]. rewrite Hfexp.
  replace (e + Zpos d - e)%Z with (Zpos d) by lia.
  cbn [shr shr_record_of_loc]. rewrite iter_pos_iter, Hs, shift_right_exact.
  cbn [shr_m loc_of_shr_record round_nearest_even Zdigits2].
  unfold fexp, emin. rewrite Hm. change (3 - 1024 - 53)%Z with (-1074)%Z.
  replace (Z.max (53 + (e + Zpos d) - 53) (-1074) - (e + Zpos d))%Z with 0%Z by lia.
  cbn [shr shr_m]. change (1024 - 53)%Z with 971%Z.
  destruct (Z.leb_spec (e + Zpos d) 971); [reflexivity | lia].
Qed.

(** [x + 60.0] is exact for a positive double [x] of which 60 is a multiple
    of the unit in the last place, when the sum stays below the next power
    of two. *)
Lemma float_add_60_exact (m : positive) (e : Z) :
  bounded 53 1024 m e = true ->
  (e <= 2)%Z ->
  (Zpos m + 15 * 2 ^ (2 - e) < 2 ^ 53)%Z ->
  exists m' : positive,
    Zpos m' = (Zpos m + 15 * 2 ^ (2 - e))%Z
    /\ bounded 53 1024 m' e = true
    /\ float_add (S754_finite false m e) (float_of_Z 60) = S754_finite false m' e.
Proof.
  intros Hb He Hsum.
  pose proof (bounded_double _ _ Hb) as (Hrange & Hm & Hnormal).
  assert (Hpow : (0 < 2 ^ (2 - e))%Z) by (apply Z.pow_pos_nonneg; lia).
  assert (He47 : (-47 < e)%Z).
  { destruct (Z.ltb_spec (-47) e) as [|Hle]; [assumption|exfalso].
    destruct (Z.eq_dec e (-47)%Z) as [->|Hne].
    - assert (2 ^ 52 <= Zpos m)%Z by (apply Hnormal; lia).
      change (2 - -47)%Z with 49%Z in Hsum.
      change (2 ^ 53)%Z with (16 * 2 ^ 49)%Z in Hsum. change (2 ^ 52)%Z with (8 * 2 ^ 49)%Z in *.
      lia.
    - assert (2 ^ 50 <= 2 ^ (2 - e))%Z by (apply Z.pow_le_mono_r; lia).
      change (2 ^ 53)%Z with (8 * 2 ^ 50)%Z in Hsum. lia. }
  destruct Hnormal as [Hd Hlo]; [lia|].
  set (m' := Z.to_pos (Zpos m + 15 * 2 ^ (2 - e))).
  assert (Hm' : Zpos m' = (Zpos m + 15 * 2 ^ (2 - e))%Z) by (unfold m'; lia).
  assert (Hd' : Zpos (digits2_pos m') = 53%Z).
  { apply digits2_pos_unique. rewrite Hm'. change (53 - 1)%Z with 52%Z. lia. }
  exists m'. split; [exact Hm'|]. split.
  { unfold bounded, canonical_mantissa, fexp, emin. rewrite Hd'.
    change (3 - 1024 - 53)%Z with (-1074)%Z. change (1024 - 53)%Z with 971%Z.
    apply andb_true_intro. split; [apply Z.eqb_eq | apply Z.leb_le]; lia. }
  set (d := Z.to_pos (e + 47)).
  assert (Hdz : Zpos d = (e + 47)%Z) by (unfold d; lia).
  change (float_of_Z 60) with (S754_finite false 8444249301319680 (-47)).
  unfold float_add, SFadd.
  rewrite Z.min_r by lia.
  unfold shl_align at 1; replace (-47 - e)%Z with (Zneg d) by lia.
  unfold shl_align; change (-47 - -47)%Z with 0%Z; cbn [fst cond_Zopp].
  rewrite <- Pos2Z.inj_add. cbn [binary_normalize].
  replace (S754_finite false m' e) with (S754_finite false m' (-47 + Zpos d))
    by (f_equal; lia).
  apply binary_round_exact; [|exact Hd'|lia].
  rewrite Pos2Z.inj_add, shift_left_Z, Hm', Hdz.
  replace (2 - e)%Z with (49 - (e + 47))%Z by lia.
  rewrite Z.mul_add_distr_r, <- Z.mul_assoc, <- Z.pow_add_r by lia.
  replace (49 - (e + 47) + (e + 47))%Z with 49%Z by lia; reflexivity.
Qed.

(** *** Floats and the numbers they stand for *)

Lemma two_pow_scaled (n : Z) :
  (0 <= n + 1074)%Z -> (2 ^ n * 2 ^ 1074 == inject_Z (2 ^ (n + 1074)))%Q.
Proof.
  intros Hn. rewrite <- Qpower_plus by discriminate.
  now rewrite Zpower_Qpower by exact Hn.
Qed.

Lemma float_Q_scaled (x : spec_float) (q : Q) :
  valid_binary 53 1024 x = true ->
  float_Q x = Some q ->
  (q * 2 ^ 1074 == inject_Z (float_scaled x))%Q.
Proof.
  intros Hv Hq. destruct x as [s|s| |s m e]; try discriminate Hq; injection Hq as <-.
  - apply Qmult_0_l.
  - apply bounded_double in Hv as (He & _).
    unfold float_scaled. rewrite <- Qmult_assoc, two_pow_scaled by lia.
    rewrite <- inject_Z_mult.
    replace (cond_Zopp s (Zpos m) * 2 ^ (e + 1074))%Z
      with (cond_Zopp s (Zpos m * 2 ^ (e + 1074))) by (destruct s; cbn [cond_Zopp]; lia).
    reflexivity.
Qed.

Lemma Qlt_scaled (a b : Q) (x y : Z) :
  (a * 2 ^ 1074 == inject_Z x)%Q -> (b * 2 ^ 1074 == inject_Z y)%Q ->
  (a < b)%Q <-> (x < y)%Z.
Proof.
  intros Ha Hb. rewrite Zlt_Qlt, <- Ha, <- Hb.
  symmetry. apply Qmult_lt_r. now apply Qpower_0_lt.
Qed.

Lemma Qle_scaled (a b : Q) (x y : Z) :
  (a * 2 ^ 1074 == inject_Z x)%Q -> (b * 2 ^ 1074 == inject_Z y)%Q ->
  (a <= b)%Q <-> (x <= y)%Z.
Proof.
  intros Ha Hb. rewrite Zle_Qle, <- Ha, <- Hb.
  symmetry. apply Qmult_le_r. now apply Qpower_0_lt.
Qed.

Lemma plus_60_scaled (a : Q) (x : Z) :
  (a * 2 ^ 1074 == inject_Z x)%Q ->
  ((a + 60) * 2 ^ 1074 == inject_Z (x + 15 * 2 ^ 1076))%Q.
Proof.
  intros Ha. rewrite Qmult_plus_distr_l, Ha, inject_Z_plus.
  apply Qplus_comp; [reflexivity|].
  change 60%Q with (inject_Z 15 * 2 ^ 2)%Q.
  rewrite <- Qmult_assoc, two_pow_scaled by lia.
  now rewrite <- inject_Z_mult.
Qed.

(** The test [now < last + 60.0] of the code decides whether [now] is less
    than 60 seconds after [last], for a recorded time [last] that lies,
    together with [last + 60], between two consecutive powers of two from
    [2 ^ 6] to [2 ^ 55]: there the sum is a double. *)
Lemma float_lt_plus_60 (now last : spec_float) (t t0 : Q) (k : Z) :
  valid_binary 53 1024 last = true -> float_Q last = Some t0 ->
  valid_binary 53 1024 now = true -> float_Q now = Some t ->
  (6 <= k <= 54)%Z -> (2 ^ k <= t0)%Q -> (t0 + 60 < 2 ^ (k + 1))%Q ->
  float_truth last = true
  /\ (float_lt now (float_add last (float_of_Z 60)) = true <-> (t < t0 + 60)%Q).
Proof.
  intros Hvl Hql Hvn Hqn Hk Hlo Hhi.
  pose proof (float_Q_scaled _ _ Hvl Hql) as Hsl.
  pose proof (float_Q_scaled _ _ Hvn Hqn) as Hsn.
  pose proof (plus_60_scaled _ _ Hsl) as Hsl60.
  rewrite (Qle_scaled _ _ _ _ (two_pow_scaled k ltac:(lia)) Hsl) in Hlo.
  rewrite (Qlt_scaled _ _ _ _ Hsl60 (two_pow_scaled (k + 1) ltac:(lia))) in Hhi.
  rewrite (Qlt_scaled _ _ _ _ Hsn Hsl60).
  clear Hsl Hsl60 Hql t0.
  assert (Hpk : (0 < 2 ^ (k + 1074))%Z) by (apply Z.pow_pos_nonneg; lia).
  destruct last as [s|s| |s m e]; cbn [float_scaled] in Hlo, Hhi; try lia.
  cbn [valid_binary] in Hvl.
  pose proof (bounded_double _ _ Hvl) as (He & Hm & Hnormal).
  assert (HpE : (0 < 2 ^ (e + 1074))%Z) by (apply Z.pow_pos_nonneg; lia).
  destruct s; cbn [cond_Zopp] in Hlo, Hhi; [nia|].
  split; [reflexivity|].
  assert (He1 : (k + 1074 < 53 + (e + 1074))%Z).
  { apply (Z.pow_lt_mono_r_iff 2); [lia|lia|].
    rewrite (Z.pow_add_r 2 53) by lia.
    eapply Z.le_lt_trans; [exact Hlo|]. apply Z.mul_lt_mono_pos_r; assumption. }
  destruct Hnormal as [Hd Hm52]; [lia|].
  assert (Hp1076 : (0 < 2 ^ 1076)%Z) by (apply Z.pow_pos_nonneg; lia).
  assert (He2 : (52 + (e + 1074) < k + 1 + 1074)%Z).
  { apply (Z.pow_lt_mono_r_iff 2); [lia|lia|].
    rewrite (Z.pow_add_r 2 52) by lia.
    eapply Z.le_lt_trans; [|exact Hhi].
    apply Z.le_trans with (Zpos m * 2 ^ (e + 1074))%Z; [|lia].
    apply Z.mul_le_mono_nonneg_r; lia. }
  assert (Hek : e = (k - 52)%Z) by lia.
  assert (Hshift : (15 * 2 ^ 1076 = 15 * 2 ^ (2 - e) * 2 ^ (e + 1074))%Z).
  { rewrite <- Z.mul_assoc, <- Z.pow_add_r by lia. do 2 f_equal. lia. }
  assert (Hsum : (Zpos m + 15 * 2 ^ (2 - e) < 2 ^ 53)%Z).
  { apply Z.mul_lt_mono_pos_r with (p := (2 ^ (e + 1074))%Z); [assumption|].
    rewrite Z.mul_add_distr_r, <- Hshift, <- Z.pow_add_r by lia.
    replace (53 + (e + 1074))%Z with (k + 1 + 1074)%Z by lia. exact Hhi. }
  destruct (float_add_60_exact m e Hvl ltac:(lia) Hsum) as (m' & Hm' & Hv' & ->).
  rewrite float_lt_scaled; [|assumption|exact Hv'|now exists t|now eexists].
  cbn [float_scaled cond_Zopp]. rewrite Hm', Z.mul_add_distr_r, <- Hshift.
  apply Z.ltb_lt.
Qed.

(** *** The cache of the probe *)

(** A probe touches the log only, and every probe starts by asking for a
    socket. *)
Lemma probe_try_frame (net : probe) (config : nat) (w : world) :
  exists w1 locals pending rest,
    probe_try net config w = (w1, locals, pending)
    /\ heap w1 = heap w
    /\ log w1 = log w ++ SocketOpen :: rest.
Proof.
  assert (Hfatal : forall args p w0,
             exists w1 o l, fatal_error_defaults args p w0 = (w1, o)
                            /\ heap w1 = heap w0 /\ log w1 = log w0 ++ l).
  { intros args p w0.
    unfold fatal_error_defaults. destruct p as [[|]|].
    - rewrite fatal_error_pretending. eexists _, _, _. repeat split.
    - rewrite fatal_error_not_pretending. eexists _, _, _. repeat split.
    - eexists _, _, []. cbn. rewrite app_nil_r. repeat split. }
  unfold probe_try.
  destruct net as [e|e|e|]; cbn zeta beta iota;
    try (destruct (is_OSError e);
         [ eexists _, _, _, _; repeat split
         | destruct (is_Exception e);
           [ match goal with
             | |- context [fatal_error_defaults ?a ?p ?w0] =>
                 destruct (Hfatal a p w0) as (w1 & o & l & -> & Hh & Hl)
             end;
             destruct o; eexists _, _, _, _;
             (split; [reflexivity|]); (split; [exact Hh|]);
             rewrite Hl; cbn; rewrite <- app_assoc; reflexivity
           | eexists _, _, _, _; repeat split ] ]).
  eexists _, _, _, _; repeat split.
Qed.

(** When the test on the recorded time succeeds, the cached result is
    returned and nothing else happens. *)
Lemma have_working_internet_connection_cached (now last : spec_float) (net : probe)
    (config : nat) (w : world) :
  TEST_MODE (heap w config) = false ->
  presume_connectivity (heap w config) = false ->
  internet_connection_last_checked_at (heap w config) = Some last ->
  float_truth last = true ->
  float_lt now (float_add last (float_of_Z 60)) = true ->
  have_working_internet_connection now net config w
  = (w, Ret (internet_connection_last_check_result (heap w config))).
Proof.
  intros Ht Hp Hl Htruth Hlt. unfold have_working_internet_connection.
  rewrite Ht, Hp, Hl. cbn [orb timestamp_set]. rewrite Htruth, Hlt. reflexivity.
Qed.

(** With no recorded check, or when the test on the recorded time fails,
    the call probes, records the time of the call and its result, and
    returns that result; a connection gives true, an [OSError] false. *)
Lemma have_working_internet_connection_probes (now : spec_float) (net : probe)
    (config : nat) (w : world) :
  TEST_MODE (heap w config) = false ->
  presume_connectivity (heap w config) = false ->
  match internet_connection_last_checked_at (heap w config) with
  | None => True
  | Some last =>
      float_truth last = false \/ float_lt now (float_add last (float_of_Z 60)) = false
  end ->
  exists w' b rest,
    have_working_internet_connection now net config w = (w', Ret b)
    /\ internet_connection_last_checked_at (heap w' config) = Some now
    /\ internet_connection_last_check_result (heap w' config) = b
    /\ TEST_MODE (heap w' config) = TEST_MODE (heap w config)
    /\ presume_connectivity (heap w' config) = presume_connectivity (heap w config)
    /\ log w' = log w ++ SocketOpen :: rest
    /\ (net = Connects -> b = true)
    /\ (forall msg, net = ConnectRaises (OSError msg) -> b = false).
Proof.
  intros Ht Hp Hold. unfold have_working_internet_connection.
  rewrite Ht, Hp. cbn [orb].
  assert (Hmiss : timestamp_set (internet_connection_last_checked_at (heap w config))
                  && match internet_connection_last_checked_at (heap w config) with
                     | Some last_checked_at =>
                         float_lt now (float_add last_checked_at (float_of_Z 60))
                     | None => false
                     end = false).
  { destruct (internet_connection_last_checked_at (heap w config)) as [last|];
      [|apply andb_false_r].
    cbn [timestamp_set]. destruct Hold as [-> | ->]; [reflexivity | apply andb_false_r]. }
  rewrite Hmiss.
  assert (Hnet : (net = Connects -> local_result (snd (fst (probe_try net config w))) = true)
                 /\ (forall msg, net = ConnectRaises (OSError msg) ->
                       local_result (snd (fst (probe_try net config w))) = false)).
  { split; [intros ->|intros msg ->]; reflexivity. }
  destruct (probe_try_frame net config w) as (w1 & locals & pending & rest & E & Hh & Hl).
  rewrite E in *. cbn [fst snd] in Hnet.
  destruct (local_x locals); eexists _, _, _;
    (split; [reflexivity|]); cbn;
    rewrite fn_lookup_insert; cbn; rewrite ?Hl, ?Hh, <- ?app_assoc; cbn;
    repeat split; first [assumption | apply Hnet].
Qed.



(** Two calls on one configuration that has no recorded check: the first
    call probes, at a time [now1] as in C5; when the second call comes less
    than 60 seconds after it, it returns what the first call returned and
    changes nothing, whatever the network does by then. *)
Lemma have_working_internet_connection_twice (now1 now2 : spec_float) (t1 t2 : Q) (k : Z)
    (net1 net2 : probe) (config : nat) (w : world) :
  TEST_MODE (heap w config) = false ->
  presume_connectivity (heap w config) = false ->
  internet_connection_last_checked_at (heap w config) = None ->
  valid_binary 53 1024 now1 = true -> float_Q now1 = Some t1 ->
  (6 <= k <= 54)%Z -> (2 ^ k <= t1)%Q -> (t1 + 60 < 2 ^ (k + 1))%Q ->
  valid_binary 53 1024 now2 = true -> float_Q now2 = Some t2 ->
  (t2 < t1 + 60)%Q ->
  exists w1 b rest,
    have_working_internet_connection now1 net1 config w = (w1, Ret b)
    /\ log w1 = log w ++ SocketOpen :: rest
    /\ have_working_internet_connection now2 net2 config w1 = (w1, Ret b).
Proof.
  intros Ht Hp Hnone Hv1 Hq1 Hk Hlo Hhi Hv2 Hq2 Hlt.
  destruct (have_working_internet_connection_probes now1 net1 config w Ht Hp)
    as (w1 & b & rest & Hrun & Hat & Hres & Ht1 & Hp1 & Hlog & _).
  { now rewrite Hnone. }
  exists w1, b, rest. split; [exact Hrun|]. split; [exact Hlog|].
  rewrite <- Hres.
  destruct (float_lt_plus_60 now2 now1 t2 t1 k Hv1 Hq1 Hv2 Hq2 Hk Hlo Hhi) as [Htruth Htest].
  apply (have_working_internet_connection_cached now2 now1); try assumption; try congruence.
  now apply Htest.
Qed.

(** C7.  Every call of [have_working_internet_connection] returns a
    boolean: no exception of the probe leaves the function.  In particular,
    when [connect] raises an [Exception] that is not an [OSError] and
    [pretend] is false, the fatal path runs, prints its message and raises
    [SystemExit(3)], and the function still closes the socket, records a
    false result and returns [False]. *)
Theorem have_working_internet_connection_never_raises (now : spec_float) (net : probe)
    (config : nat) (w : world) :
  (exists w' b, have_working_internet_connection now net config w = (w', Ret b))
  /\ forall ex,
       is_Exception ex = true ->
       is_OSError ex = false ->
       net = ConnectRaises ex ->
       pretend (heap w config) = PyBool false ->
       TEST_MODE (heap w config) = false ->
       presume_connectivity (heap w config) = false ->
       internet_connection_last_checked_at (heap w config) = None ->
       let attempted :=
         set_log (log w ++ [SocketOpen; SocketSetTimeout 3; SocketConnect "8.8.8.8" 53]) w in
       exists reported,
         fatal_error_defaults
           ["Something went wrong while checking for internet connection"; str_of_exn ex]
           (PyBool false) attempted
         = (reported, Raise (SystemExit 3))
         /\ have_working_internet_connection now net config w
            = (set_heap (<[config := set_last_check now false (heap w config)]> (heap w))
                 (set_log (log reported ++ [SocketClose]) reported),
               Ret false).
Proof.
  split.
  - unfold have_working_internet_connection.
    destruct (TEST_MODE _ || presume_connectivity _); [eexists _, _; reflexivity|].
    destruct (timestamp_set _ && _); [eexists _, _; reflexivity|].
    destruct (probe_try net config w) as [[w1 locals] pending].
    eexists _, _; reflexivity.
  - intros ex Hex Hos -> Hpretend Ht Hp Hnone attempted.
    pose proof (fatal_error_not_pretending
                  ["Something went wrong while checking for internet connection";
                   str_of_exn ex]
                  " " None false 3 attempted) as Hfatal.
    fold (fatal_error_defaults
            ["Something went wrong while checking for internet connection"; str_of_exn ex]
            (PyBool false)) in Hfatal.
    eexists. split; [exact Hfatal|].
    unfold have_working_internet_connection, probe_try.
    rewrite Ht, Hp, Hnone, Hos, Hex. cbn [orb andb timestamp_set heap set_log].
    rewrite Hpretend. fold attempted. rewrite Hfatal. reflexivity.
Qed.

(** ** ThreadJoiner: the guarded scope *)

Lemma exit_trace_cons (ended : nat -> bool) (st : nat -> thread_status)
    (names : nat -> string) (t : nat) (ts : list nat) :
  exit_trace ended st names (t :: ts)
  = exit_trace ended st names [t] ++ exit_trace ended st names ts.
Proof. unfold exit_trace. cbn. now rewrite app_nil_r. Qed.

Lemma exit_trace_agree (ended : nat -> bool) (st st' : nat -> thread_status)
    (names : nat -> string) (ts : list nat) :
  (forall t, In t ts -> st' t = st t) ->
  exit_trace ended st' names ts = exit_trace ended st names ts.
Proof.
  induction ts as [|t ts IH]; intros Hsame; [reflexivity|].
  rewrite (exit_trace_cons _ st'), (exit_trace_cons _ st).
  rewrite IH by (intros u Hu; apply Hsame; now right).
  unfold exit_trace; cbn. now rewrite (Hsame t) by now left.
Qed.

(** Starting a list of distinct threads, none of them started yet. *)
Lemma enter_starts_all (ts : list nat) :
  NoDup ts ->
  forall w,
    Forall (fun t => thread_state w t = NotStarted) ts ->
    exists w1,
      for_each ts start w = (w1, Ret tt)
      /\ log w1 = log w ++ map ThreadStart ts
      /\ (forall t, In t ts -> thread_state w1 t = Running)
      /\ (forall t, ~ In t ts -> thread_state w1 t = thread_state w t).
Proof.
  induction 1 as [|t ts Hnotin Hnodup IH]; intros w Hfresh.
  - exists w. cbn. rewrite app_nil_r. repeat split; intros t [].
  - inversion Hfresh as [|? ? Ht Hts]; subst.
    set (w0 := set_log (log w ++ [ThreadStart t])
                 (set_thread_state (<[t := Running]> (thread_state w)) w)).
    assert (Hstart : start t w = (w0, Ret tt)) by (unfold start; now rewrite Ht).
    assert (Hother : forall u, u <> t -> thread_state w0 u = thread_state w u).
    { intros u Hu. cbn. now apply fn_lookup_insert_ne. }
    destruct (IH w0) as (w1 & Hrun & Hlog & Hin & Hout).
    { rewrite Forall_forall in *. intros u Hu.
      rewrite Hother; [now apply Hts|]. intros ->. now apply Hnotin, list_elem_of_In. }
    exists w1. cbn [for_each]. unfold bind. rewrite Hstart, Hrun.
    split; [reflexivity|]. split; [|split].
    + rewrite Hlog. cbn. now rewrite <- app_assoc.
    + intros u [<-|Hu]; [|now apply Hin].
      rewrite Hout by (intros Hu; now apply Hnotin, list_elem_of_In).
      cbn. apply fn_lookup_insert.
    + intros u Hu. rewrite Hout by (intros Hin'; apply Hu; now right).
      apply Hother. intros ->. apply Hu. now left.
Qed.

(** Waiting for one started thread. *)
Lemma wait_for_started (ended : nat -> bool) (t : nat) (w : world) :
  thread_state w t <> NotStarted ->
  exists w1,
    wait_for ended t w = (w1, Ret tt)
    /\ log w1 = log w ++ exit_trace ended (thread_state w) (thread_name w) [t]
    /\ thread_state w1 t = Finished
    /\ (forall u, u <> t -> thread_state w1 u = thread_state w u)
    /\ thread_name w1 = thread_name w.
Proof.
  intros Hstarted.
  unfold exit_trace. cbn [flat_map]. rewrite app_nil_r.
  unfold wait_for, bind, is_alive, join, get, status_update, print_with, emit.
  cbn [no_kwargs kw_end kw_file default].
  destruct (thread_state w t) eqn:Est; [contradiction| |].
  - destruct (ended t); cbn.
    + rewrite fn_lookup_insert. eexists. split; [reflexivity|]. cbn.
      rewrite fn_lookup_insert.
      split; [reflexivity|]. split; [reflexivity|]. split; [|reflexivity].
      intros u Hu. now rewrite !fn_lookup_insert_ne by congruence.
    + rewrite Est. eexists. split; [reflexivity|]. cbn.
      rewrite fn_lookup_insert, <- app_assoc.
      split; [reflexivity|]. split; [reflexivity|]. split; [|reflexivity].
      intros u Hu. now rewrite fn_lookup_insert_ne by congruence.
  - cbn. rewrite Est. eexists. split; [reflexivity|]. cbn.
    rewrite fn_lookup_insert.
    split; [reflexivity|]. split; [reflexivity|]. split; [|reflexivity].
    intros u Hu. now rewrite fn_lookup_insert_ne by congruence.
Qed.

(** Waiting for a list of distinct started threads. *)
Lemma exit_joins_all (ended : nat -> bool) (ts : list nat) :
  NoDup ts ->
  forall w,
    Forall (fun t => thread_state w t <> NotStarted) ts ->
    exists w1,
      for_each ts (wait_for ended) w = (w1, Ret tt)
      /\ log w1 = log w ++ exit_trace ended (thread_state w) (thread_name w) ts
      /\ (forall t, In t ts -> thread_state w1 t = Finished)
      /\ (forall t, ~ In t ts -> thread_state w1 t = thread_state w t)
      /\ thread_name w1 = thread_name w.
Proof.
  induction 1 as [|t ts Hnotin Hnodup IH]; intros w Hstarted.
  - exists w. cbn. rewrite app_nil_r. repeat split; intros t [].
  - inversion Hstarted as [|? ? Ht Hts]; subst.
    destruct (wait_for_started ended t w Ht) as (w0 & Hwait & Hlog0 & Hfin & Hother & Hnames).
    assert (Hfresh : forall u, In u ts -> thread_state w0 u = thread_state w u).
    { intros u Hu. apply Hother. intros ->. now apply Hnotin, list_elem_of_In. }
    destruct (IH w0) as (w1 & Hrun & Hlog & Hin & Hout & Hnames1).
    { rewrite Forall_forall in *. intros u Hu.
      rewrite Hfresh by assumption. now apply Hts. }
    exists w1. cbn [for_each]. unfold bind. rewrite Hwait, Hrun.
    split; [reflexivity|]. split; [|split; [|split]].
    + rewrite Hlog, Hlog0, Hnames, (exit_trace_agree _ _ _ _ _ Hfresh).
      rewrite (exit_trace_cons _ _ _ t ts). now rewrite <- app_assoc.
    + intros u [<-|Hu]; [|now apply Hin].
      rewrite Hout by (intros Hu; now apply Hnotin, list_elem_of_In).
      exact Hfin.
    + intros u Hu. rewrite Hout by (intros Hin'; apply Hu; now right).
      apply Hother. intros ->. apply Hu. now left.
    + now rewrite Hnames1.
Qed.

(** C6, as the code has it.  For a list of distinct threads, none started
    yet: [__enter__] starts them in the order of the list and returns; and
    if the scope body then ends, normally or with an exception, leaving the
    threads started (no operation makes a started thread not started
    again), the [with] statement ends with the outcome of the body, after
    [__exit__] has gone through the list in order, printing the waiting
    line with the thread's name for each thread that is still running when
    its turn comes and joining every thread; all threads of the list have
    then finished. *)
Theorem ThreadJoiner_scope_joins (ended : nat -> bool) (ts : list nat) (body : M unit)
    (w : world) :
  NoDup ts ->
  Forall (fun t => thread_state w t = NotStarted) ts ->
  exists entered,
    ThreadJoiner___enter__ (ThreadJoiner___init__ (ArgList ts)) w = (entered, Ret tt)
    /\ log entered = log w ++ map ThreadStart ts
    /\ Forall (fun t => thread_state entered t = Running) ts
    /\ forall left ob,
         body entered = (left, ob) ->
         Forall (fun t => thread_state left t <> NotStarted) ts ->
         exists exited,
           with_ (ThreadJoiner_scope ended (ThreadJoiner___init__ (ArgList ts))) body w
           = (exited, ob)
           /\ log exited
              = log left ++ exit_trace ended (thread_state left) (thread_name left) ts
           /\ Forall (fun t => thread_state exited t = Finished) ts.
Proof.
  intros Hnodup Hfresh.
  destruct (enter_starts_all ts Hnodup w Hfresh) as (entered & Henter & Hlog & Hrunning & _).
  exists entered. split; [exact Henter|]. split; [exact Hlog|].
  split; [now apply Forall_forall|].
  intros left ob Hbody Hstarted.
  destruct (exit_joins_all ended ts Hnodup left Hstarted)
    as (exited & Hexit & Hlog' & Hfinished & _).
  exists exited. split; [|split; [exact Hlog'|now apply Forall_forall]].
  unfold with_, ThreadJoiner_scope, ThreadJoiner___exit__, bind, ret. cbn [cm_enter cm_exit].
  change (threads (ThreadJoiner___init__ (ArgList ts))) with ts.
  unfold ThreadJoiner___enter__ in Henter. cbn [threads ThreadJoiner___init__] in Henter.
  unfold ThreadJoiner___enter__. cbn [threads ThreadJoiner___init__].
  rewrite Henter, Hbody.
  destruct ob as [[]|e]; rewrite Hexit; reflexivity.
Qed.

(** ** Reporters *)

(** What [warning_message], [error_message] and [fatal_error] do to the
    outside is to write to standard error, nothing else: for all arguments,
    in every world, the configuration, the error-context stack and the
    threads are as before and every event added to the log is a write to
    standard error.  The first two always return; [fatal_error] returns,
    or raises [SystemExit] with the exit code, or, when [pretend] is the
    placeholder of the uninitialised configuration, raises its
    [ValueError] before it has written anything. *)
Theorem reporters_only_write (args : list string) (sep : string)
    (fixit_hint : option string) (w : world) :
  (exists errs,
     warning_message args sep fixit_hint w = (set_log (log w ++ errs) w, Ret tt)
     /\ forallb is_stderr errs = true)
  /\ (exists errs,
        error_message args sep fixit_hint w = (set_log (log w ++ errs) w, Ret tt)
        /\ forallb is_stderr errs = true)
  /\ (forall fatal_when_pretending exit_code pretend,
        exists errs o,
          fatal_error args sep fixit_hint fatal_when_pretending exit_code pretend w
          = (set_log (log w ++ errs) w, o)
          /\ forallb is_stderr errs = true
          /\ (o = Ret tt
              \/ o = Raise (SystemExit exit_code)
              \/ o = Raise (ValueError "Should not be used") /\ errs = [])).
Proof.
  assert (Hhint : forallb is_stderr (fixit_trace fixit_hint) = true).
  { destruct fixit_hint as [[|c h]|]; reflexivity. }
  split; [|split].
  - exists (Stderr (coloured magenta (maybe_add_space "Warning:" sep ++ args) sep +:+ newline)
            :: fixit_trace fixit_hint).
    split; [|exact Hhint].
    unfold warning_message, bind, print_stderr, emit.
    rewrite fixit_message_if_hint_log. cbn. now rewrite <- app_assoc.
  - exists (Stderr (_add_error_context_text (_ERROR_CONTEXT w) "Error" args sep +:+ newline)
            :: fixit_trace fixit_hint).
    split; [|exact Hhint].
    unfold error_message, bind, print_stderr, emit.
    rewrite _add_error_context_run, fixit_message_if_hint_log. cbn. now rewrite <- app_assoc.
  - intros fatal_when_pretending exit_code [[|]|].
    + rewrite fatal_error_pretending. eexists _, _. split; [reflexivity|]. split.
      * cbn [forallb is_stderr]. rewrite forallb_app, Hhint.
        now destruct fatal_when_pretending.
      * destruct fatal_when_pretending; auto.
    + rewrite fatal_error_not_pretending. eexists _, _. split; [reflexivity|]. split.
      * cbn [forallb is_stderr]. exact Hhint.
      * auto.
    + exists [], (Raise (ValueError "Should not be used")). rewrite app_nil_r.
      split; [now destruct w|]. split; [reflexivity|]. auto.
Qed.

(** Of the error-context stack, [error_message] shows the innermost frame
    alone: whatever lies below the last frame does not change the line. *)
Theorem error_message_innermost_frame (args : list string) (sep : string)
    (fixit_hint : option string) (w : world) (outer : list string) (innermost : string) :
  _ERROR_CONTEXT w = outer ++ [innermost] ->
  error_message args sep fixit_hint w
  = (set_log
       (log w
        ++ Stderr (coloured red
                     (maybe_add_space
                        ("Error " +:+ innermost +:+ escape_sequence red +:+ ":") sep
                      ++ args)
                     sep
                   +:+ newline)
           :: fixit_trace fixit_hint)
       w,
     Ret tt).
Proof.
  intros Hstack.
  unfold error_message, bind, print_stderr, emit.
  rewrite _add_error_context_run, fixit_message_if_hint_log. cbn.
  unfold _add_error_context_text, top_frame. rewrite Hstack, last_snoc.
  now rewrite <- app_assoc.
Qed.

(** ** Interactive confirmation: the typed reply *)

Lemma lower_ascii_y (c : ascii) :
  lower_ascii c = "y"%char <-> c = "y"%char \/ c = "Y"%char.
Proof.
  destruct c as [[] [] [] [] [] [] [] []]; vm_compute; split;
    first [ intros H; discriminate H
          | intros [H|H]; discriminate H
          | intros _; auto
          | intros _; reflexivity ].
Qed.

(** With neither pretend nor force mode and a terminal, [query_yes_no]
    prompts once and reads the first character of the reply: [n] is no,
    [y] and [Y] are yes, anything else (an empty reply, a capital [N]) gives
    the default; an exception of [input] is raised after the prompt. *)
Theorem query_yes_no_interactive (reply : outcome string) (config : nat)
    (message : string) (default_result force_result : bool) (yes_no_str : option string)
    (w : world) :
  pretend (heap w config) = PyBool false ->
  force (heap w config) = PyBool false ->
  let shown :=
    match yes_no_str with
    | None => if default_result then " [Y]/n " else " y/[N] "
    | Some s => s
    end in
  query_yes_no true reply config message default_result force_result yes_no_str w
  = (set_log (log w ++ [ReadInput (message +:+ shown)]) w,
     match reply with
     | Ret typed => Ret (reply_answer default_result typed)
     | Raise e => Raise e
     end).
Proof.
  intros Hp Hf shown.
  unfold query_yes_no, bind, getattr, get, lift, input, emit, ret; cbn.
  rewrite Hp; cbn. rewrite Hf; cbn.
  destruct reply as [typed|e]; [|reflexivity].
  fold shown. f_equal.
  destruct default_result; cbn; f_equal.
  - destruct typed as [|c typed]; [reflexivity|].
    unfold startswith, reply_answer. cbn.
    destruct (Ascii.ascii_dec "n" c) as [<-|Hn]; [now destruct typed|].
    destruct c as [[] [] [] [] [] [] [] []]; try reflexivity; now destruct typed.
  - destruct typed as [|c typed]; [reflexivity|].
    unfold startswith, reply_answer. cbn [lower String.prefix].
    destruct (Ascii.ascii_dec "y" (lower_ascii c)) as [Hy|Hy].
    + symmetry in Hy. apply lower_ascii_y in Hy as [->| ->]; now destruct typed.
    + assert (Hc : c <> "y"%char /\ c <> "Y"%char).
      { split; intros ->; apply Hy; reflexivity. }
      destruct Hc as [Hc1 Hc2].
      destruct c as [[] [] [] [] [] [] [] []]; try reflexivity; congruence.
Qed.

(** ** Connectivity probe: test mode and the socket *)

(** After [init_global_config(config, test_mode=True)] the connectivity
    check on the global configuration is true at once: it asks neither the
    clock nor the network and changes nothing, whatever result the cache
    holds, and even when the initialisation itself raised. *)
Theorem test_mode_presumes_connectivity (now : spec_float) (net : probe) (config : nat)
    (w : world) :
  exists w1 o,
    init_global_config config true w = (w1, o)
    /\ get_global_config w1 = (w1, Ret config)
    /\ have_working_internet_connection now net config w1 = (w1, Ret true).
Proof.
  eexists _, _. rewrite init_global_config_run. split; [reflexivity|].
  split; [reflexivity|].
  unfold have_working_internet_connection, initialised. cbn.
  rewrite fn_lookup_insert. reflexivity.
Qed.

(** The [try] block and its handlers add socket calls and lines of the
    fatal path to the log, never the closing of the socket; [x] is bound
    unless [socket.socket] itself raised. *)
Lemma probe_try_log (net : probe) (config : nat) (w : world) :
  exists w1 locals pending added,
    probe_try net config w = (w1, locals, pending)
    /\ log w1 = log w ++ added
    /\ ~ In SocketClose added
    /\ local_x locals = match net with
                        | SocketRaises _ => false
                        | _ => true
                        end.
Proof.
  assert (Hfatal : forall args p w0,
             exists w2 o l, fatal_error_defaults args p w0 = (w2, o)
                            /\ log w2 = log w0 ++ l
                            /\ ~ In SocketClose l).
  { intros args p w0. unfold fatal_error_defaults. destruct p as [[|]|].
    - rewrite fatal_error_pretending. eexists _, _, _. split; [reflexivity|].
      split; [reflexivity|]. cbn. intros [H|[]]; discriminate H.
    - rewrite fatal_error_not_pretending. eexists _, _, _. split; [reflexivity|].
      split; [reflexivity|]. cbn. intros [H|[]]; discriminate H.
    - eexists _, _, []. cbn. rewrite app_nil_r. repeat split. intros []. }
  unfold probe_try.
  destruct net as [e|e|e|]; cbn zeta beta iota.
  4:{ eexists _, _, _, _. split; [reflexivity|]. split; [reflexivity|].
      split; [|reflexivity]. cbn. intros [H|[H|[H|[]]]]; discriminate H. }
  all: destruct (is_OSError e);
    [ eexists _, _, _, _; (split; [reflexivity|]); (split; [reflexivity|]);
      (split; [|reflexivity]); cbn; intuition discriminate
    | destruct (is_Exception e);
      [ match goal with
        | |- context [fatal_error_defaults ?a ?p ?w0] =>
            destruct (Hfatal a p w0) as (w2 & o & l & Hf & Hl & Hnot); rewrite Hf
        end;
        destruct o as [[]|e']; eexists _, _, _, (_ ++ l);
        (split; [reflexivity|]); rewrite Hl; cbn; rewrite <- app_assoc;
        (split; [reflexivity|]); (split; [|reflexivity]);
        rewrite in_app_iff; cbn; intuition discriminate
      | eexists _, _, _, _; (split; [reflexivity|]); (split; [reflexivity|]);
        (split; [|reflexivity]); cbn; intuition discriminate ] ].
Qed.

(** What a call of [have_working_internet_connection] adds to the log: the
    socket is closed exactly when [socket.socket] returned one, once, as the
    last thing the call does. *)
Theorem have_working_internet_connection_closes_socket (now : spec_float) (net : probe)
    (config : nat) (w : world) :
  exists w' b events,
    have_working_internet_connection now net config w = (w', Ret b)
    /\ log w' = log w ++ events
    /\ match net with
       | SocketRaises _ => ~ In SocketClose events
       | _ =>
           events = []
           \/ exists before, events = before ++ [SocketClose] /\ ~ In SocketClose before
       end.
Proof.
  unfold have_working_internet_connection.
  destruct (TEST_MODE _ || presume_connectivity _).
  { exists w, true, []. rewrite app_nil_r. repeat split.
    destruct net; first [intros [] | now left]. }
  destruct (timestamp_set _ && _).
  { eexists w, _, []. rewrite app_nil_r. repeat split.
    destruct net; first [intros [] | now left]. }
  destruct (probe_try_log net config w) as (w1 & locals & pending & added & -> & Hlog & Hnot & Hx).
  rewrite Hx.
  destruct net as [e|e|e|]; eexists _, _, _; (split; [reflexivity|]); cbn; rewrite Hlog;
    rewrite <- ?app_assoc; (split; [reflexivity|]); eauto.
Qed.

(** ** ThreadJoiner: failed entry, reuse, concatenation *)

Lemma for_each_app {A} (l1 l2 : list A) (f : A -> M unit) (w : world) :
  for_each (l1 ++ l2) f w
  = match for_each l1 f w with
    | (w1, Ret _) => for_each l2 f w1
    | (w1, Raise e) => (w1, Raise e)
    end.
Proof.
  revert w. induction l1 as [|x l1 IH]; intros w; [reflexivity|].
  cbn [app for_each]. unfold bind. destruct (f x w) as [w0 [[]|e]]; [apply IH | reflexivity].
Qed.

(** Entering a joiner whose list reaches a thread that is started already
    (started before, or listed a second time): the threads in front of it
    are started, [__enter__] raises [RuntimeError], and the [with] statement
    ends there, with those threads running and not joined; the scope body
    does not run and the threads behind are left alone. *)
Theorem ThreadJoiner_enter_stops_at_started_thread (ended : nat -> bool)
    (front : list nat) (t : nat) (behind : list nat) (body : M unit) (w : world) :
  NoDup front ->
  Forall (fun u => thread_state w u = NotStarted) front ->
  In t front \/ thread_state w t <> NotStarted ->
  exists w1,
    with_ (ThreadJoiner_scope ended (ThreadJoiner___init__ (ArgList (front ++ t :: behind))))
      body w
    = (w1, Raise (RuntimeError "threads can only be started once"))
    /\ log w1 = log w ++ map ThreadStart front
    /\ Forall (fun u => thread_state w1 u = Running) front
    /\ forall u, ~ In u front -> thread_state w1 u = thread_state w u.
Proof.
  intros Hnodup Hfresh Hstarted.
  destruct (enter_starts_all front Hnodup w Hfresh) as (w1 & Hrun & Hlog & Hin & Hout).
  exists w1. split; [|split; [exact Hlog|split; [now apply Forall_forall | exact Hout]]].
  assert (Ht : thread_state w1 t <> NotStarted).
  { destruct (in_dec Nat.eq_dec t front) as [Hyes|Hno].
    - rewrite (Hin t Hyes). discriminate.
    - rewrite (Hout t Hno). destruct Hstarted; [contradiction | assumption]. }
  unfold with_, ThreadJoiner_scope, ThreadJoiner___enter__. cbn [cm_enter threads ThreadJoiner___init__].
  rewrite for_each_app, Hrun. cbn [for_each]. unfold bind, start.
  destruct (thread_state w1 t); [contradiction | reflexivity | reflexivity].
Qed.

(** A joiner serves one scope.  After a [with] statement over a non-empty
    list of distinct threads has started them and ended, a second [with]
    statement on the same joiner raises [RuntimeError] on entry: nothing is
    started, the body does not run, the world stays as it is. *)
Theorem ThreadJoiner_not_reusable (ended ended' : nat -> bool) (ts : list nat)
    (body body' : M unit) (w entered left : world) (ob : outcome unit) :
  ts <> [] ->
  NoDup ts ->
  ThreadJoiner___enter__ (ThreadJoiner___init__ (ArgList ts)) w = (entered, Ret tt) ->
  body entered = (left, ob) ->
  Forall (fun t => thread_state left t <> NotStarted) ts ->
  exists exited,
    with_ (ThreadJoiner_scope ended (ThreadJoiner___init__ (ArgList ts))) body w = (exited, ob)
    /\ with_ (ThreadJoiner_scope ended' (ThreadJoiner___init__ (ArgList ts))) body' exited
       = (exited, Raise (RuntimeError "threads can only be started once")).
Proof.
  intros Hne Hnodup Henter Hbody Hstarted.
  destruct (exit_joins_all ended ts Hnodup left Hstarted)
    as (exited & Hexit & _ & Hfinished & _).
  exists exited. split.
  - unfold with_, ThreadJoiner_scope, ThreadJoiner___exit__, bind, ret. cbn [cm_enter cm_exit].
    change (threads (ThreadJoiner___init__ (ArgList ts))) with ts.
    rewrite Henter, Hbody. destruct ob as [[]|e]; rewrite Hexit; reflexivity.
  - destruct ts as [|t ts]; [contradiction|].
    unfold with_, ThreadJoiner_scope, ThreadJoiner___enter__.
    cbn [cm_enter threads ThreadJoiner___init__ for_each]. unfold bind, start.
    rewrite (Hfinished t) by now left. reflexivity.
Qed.

(** Entering and leaving [a + b] is entering, respectively leaving, [a] and
    then [b]: when a thread of [a] cannot be started, no thread of [b] is
    started. *)
Theorem ThreadJoiner_add_sequences (ended : nat -> bool) (a b : ThreadJoiner) (w : world) :
  ThreadJoiner___enter__ (ThreadJoiner___add__ a b) w
  = match ThreadJoiner___enter__ a w with
    | (w1, Ret _) => ThreadJoiner___enter__ b w1
    | (w1, Raise e) => (w1, Raise e)
    end
  /\ forall exc,
       ThreadJoiner___exit__ ended (ThreadJoiner___add__ a b) exc w
       = match ThreadJoiner___exit__ ended a exc w with
         | (w1, Ret _) => ThreadJoiner___exit__ ended b exc w1
         | (w1, Raise e) => (w1, Raise e)
         end.
Proof.
  split.
  - unfold ThreadJoiner___enter__, ThreadJoiner___add__. cbn [threads ThreadJoiner___init__].
    apply for_each_app.
  - intros exc. unfold ThreadJoiner___exit__, ThreadJoiner___add__, bind, ret.
    cbn [threads ThreadJoiner___init__]. rewrite for_each_app.
    destruct (for_each (threads a) (wait_for ended) w) as [w1 [[]|e]]; reflexivity.
Qed.

End Reporting.

(** * The properties on concrete runs *)

(** [add_error_context_scope] on a body that raises at once: ["X"] stays on
    the stack, and the exception is the one the body raised. *)
Lemma add_error_context_scope_witness :
  failing_step (set_ERROR_CONTEXT (_ERROR_CONTEXT initial_world ++ ["X"]) initial_world)
  = (set_ERROR_CONTEXT ["X"] initial_world, Raise make_failed)
  /\ _ERROR_CONTEXT (set_ERROR_CONTEXT ["X"] initial_world)
     = _ERROR_CONTEXT initial_world ++ ["X"]
  /\ with_ (add_error_context "X") failing_step initial_world
     = (set_ERROR_CONTEXT ["X"] initial_world, Raise make_failed)
  /\ top_frame (_ERROR_CONTEXT (set_ERROR_CONTEXT ["X"] initial_world)) = Some "X".
Proof.
  split; [reflexivity|]. split; [reflexivity|].
  exact (proj2 (add_error_context_scope "X" failing_step initial_world
                  (set_ERROR_CONTEXT ["X"] initial_world) (Raise make_failed) eq_refl)
               eq_refl).
Defined.

(** C2 as stated fails.  With an empty stack, wrap in the context ["X"] an
    operation that itself runs a failing operation in the context ["Y"]:
    the inner scope leaves ["Y"] on the stack, so when the failure leaves
    the outer scope the stack is [["X"; "Y"]] and its top frame is ["Y"],
    not ["X"]. *)
Lemma add_error_context_nested_failure :
  with_ (add_error_context "X") failing_step_in_Y initial_world
  = (set_ERROR_CONTEXT ["X"; "Y"] initial_world, Raise make_failed)
  /\ ~ (forall (context : string) (body : M unit) (w w2 : world) (ob : outcome unit),
          body (set_ERROR_CONTEXT (_ERROR_CONTEXT w ++ [context]) w) = (w2, ob) ->
          exists w',
            with_ (add_error_context context) body w = (w', ob)
            /\ match ob with
               | Ret _ => _ERROR_CONTEXT w' = _ERROR_CONTEXT w
               | Raise _ => top_frame (_ERROR_CONTEXT w') = Some context
               end).
Proof.
  split; [reflexivity|].
  intros Hclaim.
  destruct (Hclaim "X" failing_step_in_Y initial_world _ _ eq_refl) as (w' & Hrun & Htop).
  change (with_ (add_error_context "X") failing_step_in_Y initial_world)
    with (set_ERROR_CONTEXT ["X"; "Y"] initial_world, @Raise unit make_failed) in Hrun.
  inversion Hrun; subst w'. discriminate Htop.
Qed.

(** [init_global_config_mutually_exclusive] on a configuration that is both
    verbose and quiet, and on one that is only verbose. *)
Lemma init_global_config_mutually_exclusive_witness :
  snd (init_global_config 1 false
         (world_of (ConfigBase___init__ (PyBool false) (PyBool true) (PyBool true)
                                        (PyBool false))))
  = Raise (AssertionError "mutually exclusive")
  /\ snd (init_global_config 1 false
            (world_of (ConfigBase___init__ (PyBool false) (PyBool true) (PyBool false)
                                           (PyBool false))))
     = Ret tt.
Proof.
  split.
  - exact (init_global_config_mutually_exclusive 1 false
             (world_of (ConfigBase___init__ (PyBool false) (PyBool true) (PyBool true)
                                            (PyBool false)))
             true true eq_refl eq_refl).
  - exact (init_global_config_mutually_exclusive 1 false
             (world_of (ConfigBase___init__ (PyBool false) (PyBool true) (PyBool false)
                                            (PyBool false)))
             true false eq_refl eq_refl).
Defined.

(** C8 as stated fails.  Install object 1 outside test mode, which
    succeeds; a second call outside test mode with object 2 succeeds as
    well and object 2 is the global instance afterwards. *)
Lemma init_global_config_twice :
  (exists w1 w2,
     init_global_config 1 false sample_world = (w1, Ret tt)
     /\ init_global_config 2 false w1 = (w2, Ret tt)
     /\ GlobalConfig w1 = 1%nat
     /\ GlobalConfig w2 = 2%nat)
  /\ ~ (forall (first second : nat) (mode1 mode2 : bool) (w w1 w2 : world) (o : outcome unit),
          init_global_config first mode1 w = (w1, Ret tt) ->
          init_global_config second mode2 w1 = (w2, o) ->
          GlobalConfig w2 <> GlobalConfig w1 ->
          mode1 = true \/ mode2 = true).
Proof.
  split.
  - eexists _, _. repeat split.
  - intros Hclaim.
    destruct (Hclaim 1%nat 2%nat false false sample_world _ _ _ eq_refl eq_refl)
      as [H|H]; [|discriminate H..].
    cbn. discriminate.
Qed.

(** [query_yes_no_contract] in pretend mode, in force mode, and with
    neither mode and no terminal. *)
Lemma query_yes_no_contract_witness :
  query_yes_no plain_coloured true (Ret "n") 1 "Delete?" false true None
    (world_of (ConfigBase___init__ (PyBool true) (PyBool false) (PyBool false) (PyBool false)))
  = (set_log [Stdout ("Delete? y/[N] y" +:+ newline)]
       (world_of (ConfigBase___init__ (PyBool true) (PyBool false) (PyBool false)
                                      (PyBool false))),
     Ret true)
  /\ query_yes_no plain_coloured true (Ret "y") 1 "Delete?" true false None
       (world_of (ConfigBase___init__ (PyBool false) (PyBool false) (PyBool false)
                                      (PyBool true)))
     = (set_log [Stdout ("Delete? [Y]/n n" +:+ newline)]
          (world_of (ConfigBase___init__ (PyBool false) (PyBool false) (PyBool false)
                                         (PyBool true))),
        Ret false)
  /\ query_yes_no plain_coloured false (Ret "y") 1 "Delete?" false true None sample_world
     = (sample_world, Ret false).
Proof.
  split; [|split].
  - exact (proj1 (query_yes_no_contract plain_coloured true (Ret "n") 1 "Delete?" false true
                    None
                    (world_of (ConfigBase___init__ (PyBool true) (PyBool false)
                                                   (PyBool false) (PyBool false))))
                 eq_refl).
  - exact (proj1 (proj2 (query_yes_no_contract plain_coloured true (Ret "y") 1 "Delete?"
                           true false None
                           (world_of (ConfigBase___init__ (PyBool false) (PyBool false)
                                                          (PyBool false) (PyBool true)))))
                 eq_refl eq_refl).
  - exact (proj2 (proj2 (query_yes_no_contract plain_coloured false (Ret "y") 1 "Delete?"
                           false true None sample_world))
                 eq_refl eq_refl).
Defined.

(** [fatal_error] in pretend mode, run with a colouring that adds nothing:
    the line on standard error, without and with an error context. *)
Example fatal_error_pretend_line :
  fatal_error plain_coloured plain_escape_sequence ["disk"; "full"] " " None false 3
    (PyBool true) sample_world
  = (set_log [Stderr ("Potential fatal error: disk full" +:+ newline)] sample_world, Ret tt)
  /\ fatal_error plain_coloured plain_escape_sequence ["disk"; "full"] " " None false 3
       (PyBool true) (set_ERROR_CONTEXT ["building llvm"] sample_world)
     = (set_log [Stderr ("Potential fatal error building llvm: disk full" +:+ newline)]
          (set_ERROR_CONTEXT ["building llvm"] sample_world),
        Ret tt).
Proof. split; reflexivity. Qed.

(** [have_working_internet_connection_never_raises] on a probe whose
    [connect] raises a [UnicodeError], outside pretend mode: the fatal path
    raises [SystemExit(3)] and the function returns [False]. *)
Lemma have_working_internet_connection_never_raises_witness :
  exists reported,
    fatal_error_defaults plain_coloured plain_escape_sequence
      ["Something went wrong while checking for internet connection";
       str_of_exn unexpected_error]
      (PyBool false)
      (set_log (log sample_world
                ++ [SocketOpen; SocketSetTimeout 3; SocketConnect "8.8.8.8" 53])
         sample_world)
    = (reported, Raise (SystemExit 3))
    /\ have_working_internet_connection plain_coloured plain_escape_sequence clock_start
         (ConnectRaises unexpected_error) 1 sample_world
       = (set_heap (<[1%nat := set_last_check clock_start false (heap sample_world 1%nat)]>
                      (heap sample_world))
            (set_log (log reported ++ [SocketClose]) reported),
          Ret false).
Proof.
  exact (proj2 (have_working_internet_connection_never_raises plain_coloured
                  plain_escape_sequence clock_start (ConnectRaises unexpected_error) 1
                  sample_world)
               unexpected_error eq_refl eq_refl eq_refl eq_refl eq_refl eq_refl eq_refl).
Defined.

(** The log of that call: the three socket calls, the message of the fatal
    path, and the closing of the socket. *)
Example have_working_internet_connection_unexpected_error_log :
  log (fst (have_working_internet_connection plain_coloured plain_escape_sequence clock_start
              (ConnectRaises unexpected_error) 1 sample_world))
  = [SocketOpen; SocketSetTimeout 3; SocketConnect "8.8.8.8" 53;
     Stderr ("Fatal error: Something went wrong while checking for internet connection"
             +:+ " encoding with 'idna' codec failed" +:+ newline);
     SocketClose].
Proof. reflexivity. Qed.

(** A sum of doubles is rounded.  [0.3 + 60.0] is the double [60.3]: a call
    at that time after a check at [0.3] finds the test [now < last + 60.0]
    false and probes again (no clock returns such times today; at the times
    of [have_working_internet_connection_sixty_seconds] the sum is exact). *)
Example float_add_is_rounded :
  float_add (S754_finite false 5404319552844595 (-54)) (float_of_Z 60)
  = S754_finite false 8486470547826278 (-47)
  /\ float_lt (S754_finite false 8486470547826278 (-47))
       (float_add (S754_finite false 5404319552844595 (-54)) (float_of_Z 60))
     = false.
Proof. split; reflexivity. Qed.


(** [ThreadJoiner_scope_joins] on three threads and a scope body that
    fails; thread 1 has ended by the time [__exit__] reaches it. *)
Lemma ThreadJoiner_scope_joins_witness :
  NoDup [0; 1; 2]%nat
  /\ Forall (fun t => thread_state initial_world t = NotStarted) [0; 1; 2]%nat
  /\ exists exited,
       with_ (ThreadJoiner_scope plain_coloured (Nat.eqb 1)
                (ThreadJoiner___init__ (ArgList [0; 1; 2]%nat)))
         failing_step initial_world
       = (exited, Raise make_failed)
       /\ Forall (fun t => thread_state exited t = Finished) [0; 1; 2]%nat.
Proof.
  assert (Hnodup : NoDup [0; 1; 2]%nat).
  { apply (bool_decide_unpack (NoDup [0; 1; 2]%nat)). vm_compute. exact I. }
  assert (Hfresh : Forall (fun t => thread_state initial_world t = NotStarted) [0; 1; 2]%nat)
    by (repeat constructor).
  split; [exact Hnodup|]. split; [exact Hfresh|].
  destruct (ThreadJoiner_scope_joins plain_coloured (Nat.eqb 1) [0; 1; 2]%nat failing_step
              initial_world Hnodup Hfresh)
    as (entered & _ & _ & Hrunning & Hscope).
  destruct (Hscope entered (Raise make_failed) eq_refl) as (exited & Hwith & _ & Hfinished).
  - eapply Forall_impl; [|exact Hrunning]. intros t Ht. cbn in Ht. rewrite Ht. discriminate.
  - exists exited. split; [exact Hwith | exact Hfinished].
Defined.

(** That run, computed: the three starts in order, then for threads 0 and 2
    the waiting line and the join, for thread 1 the join alone. *)
Example ThreadJoiner_three_threads_log :
  log (fst (with_ (ThreadJoiner_scope plain_coloured (Nat.eqb 1)
                     (ThreadJoiner___init__ (ArgList [0; 1; 2]%nat)))
              failing_step initial_world))
  = [ThreadStart 0; ThreadStart 1; ThreadStart 2;
     Stdout ("Waiting for 'Thread' to complete" +:+ newline); ThreadJoin 0;
     ThreadJoin 1;
     Stdout ("Waiting for 'Thread' to complete" +:+ newline); ThreadJoin 2].
Proof. reflexivity. Qed.

(** C6 as stated fails on a list that holds one thread twice, such as the
    list of [j + j].  The thread is not started when the joiner is built;
    [__enter__] starts it, then fails on the second [start()] with
    [RuntimeError]; the [with] statement neither runs its body nor calls
    [__exit__], and the thread is left running, never joined. *)
Lemma ThreadJoiner_repeated_thread :
  (exists w',
     with_ (ThreadJoiner_scope plain_coloured (fun _ => false)
              (ThreadJoiner___init__ (ArgList [0; 0]%nat)))
       (ret tt) initial_world
     = (w', Raise (RuntimeError "threads can only be started once"))
     /\ log w' = [ThreadStart 0]
     /\ thread_state w' 0%nat = Running)
  /\ ~ (forall (ended : nat -> bool) (ts : list nat) (body : M unit) (w : world),
          Forall (fun t => thread_state w t = NotStarted) ts ->
          (forall w1 w2 o t,
             body w1 = (w2, o) -> thread_state w1 t <> NotStarted ->
             thread_state w2 t <> NotStarted) ->
          exists w',
            with_ (ThreadJoiner_scope plain_coloured ended
                     (ThreadJoiner___init__ (ArgList ts)))
              body w
            = (w', snd (body (fst (ThreadJoiner___enter__
                                     (ThreadJoiner___init__ (ArgList ts)) w))))
            /\ Forall (fun t => thread_state w' t = Finished) ts).
Proof.
  split.
  - eexists. split; [reflexivity|]. split; reflexivity.
  - intros Hclaim.
    destruct (Hclaim (fun _ => false) [0; 0]%nat (ret tt) initial_world) as (w' & Hrun & _).
    + repeat constructor.
    + intros w1 w2 o t Hret Hstarted. inversion Hret; subst. exact Hstarted.
    + discriminate Hrun.
Qed.

(** * Further properties *)

(** ** Strings and lists *)

Lemma append_String (c : Ascii.ascii) (p t : string) :
  String c p +:+ t = String c (p +:+ t).
Proof. reflexivity. Qed.

Lemma prefix_app (p s : string) : String.prefix p s = true <-> exists t, s = p +:+ t.
Proof.
  revert s. induction p as [|c p IH]; intros s.
  - destruct s; cbn; split; eauto.
  - destruct s as [|d s]; cbn.
    + split; [discriminate | intros [t Ht]; discriminate].
    + destruct (Ascii.ascii_dec c d) as [->|Hne].
      * rewrite IH. split; intros [t Ht]; exists t.
        -- now rewrite Ht.
        -- rewrite append_String in Ht. congruence.
      * split; [discriminate|]. intros [t Ht]. rewrite append_String in Ht. congruence.
Qed.

Lemma str_from_app (p t : string) : str_from (String.length p) (p +:+ t) = t.
Proof. induction p; cbn; auto. Qed.

(** [remove_prefix] undoes putting [prefix] in front: of [prefix + t] it
    returns [t], and of any [s] that starts with [prefix] it returns the
    rest [t] with [prefix + t = s], whatever [prefix_required] is. *)
Theorem remove_prefix_round_trip (s prefix : string) (prefix_required : bool) :
  (forall t, remove_prefix (prefix +:+ t) prefix prefix_required = Ret t)
  /\ (startswith prefix s = true ->
      exists t, remove_prefix s prefix prefix_required = Ret t /\ prefix +:+ t = s).
Proof.
  split.
  - intros t. unfold remove_prefix, startswith.
    assert (H : String.prefix prefix (prefix +:+ t) = true) by (apply prefix_app; eauto).
    rewrite H. cbn. now rewrite str_from_app.
  - intros H. unfold remove_prefix. rewrite H. cbn.
    apply prefix_app in H as [t ->]. exists t. now rewrite str_from_app.
Qed.

Lemma append_length (a b : string) : String.length (a +:+ b) = (String.length a + String.length b)%nat.
Proof. induction a as [|x a IH]; [reflexivity|]. rewrite append_String. cbn. now rewrite IH. Qed.

Lemma append_cancel_r (a b c : string) : a +:+ c = b +:+ c -> a = b.
Proof.
  revert b. induction a as [|x a IH]; intros b H.
  - destruct b as [|y b]; [reflexivity|].
    apply (f_equal String.length) in H. rewrite !append_length in H. cbn in H. lia.
  - destruct b as [|y b].
    + apply (f_equal String.length) in H. rewrite !append_length in H. cbn in H. lia.
    + rewrite !append_String in H. injection H as -> H. f_equal. now apply IH.
Qed.

Lemma append_cancel_l (a b c : string) : a +:+ b = a +:+ c -> b = c.
Proof.
  induction a as [|x a IH]; intros H; [exact H|].
  rewrite !append_String in H. injection H. exact IH.
Qed.

Lemma str_replace_1_spec (old new s : string) :
  (exists before after,
     leftmost_occurrence old s before after
     /\ str_replace_1 old new s = before +:+ new +:+ after)
  \/ ((forall before after, s <> before +:+ old +:+ after) /\ str_replace_1 old new s = s).
Proof.
  induction s as [|c s IH].
  - cbn. destruct old as [|o old]; cbn.
    + left. exists EmptyString, EmptyString. repeat split. intros; cbn; lia.
    + right. split; [|reflexivity]. intros before after H.
      destruct before; cbn in H; discriminate.
  - cbn [str_replace_1]. destruct (String.prefix old (String c s)) eqn:Hp.
    + left. apply prefix_app in Hp as [t Ht]. exists EmptyString, t.
      rewrite Ht, str_from_app. repeat split. intros; cbn; lia.
    + assert (Hfront : forall before after,
                 String c s = before +:+ old +:+ after ->
                 exists before', before = String c before' /\ s = before' +:+ old +:+ after).
      { intros before after H. destruct before as [|b before].
        - cbn in H. assert (String.prefix old (String c s) = true)
            by (apply prefix_app; eauto). congruence.
        - rewrite append_String in H. injection H as -> H. eauto. }
      destruct IH as [(before & after & [Hocc Hleft] & Hr)|[Hnone Hr]].
      * left. exists (String c before), after. rewrite Hr. split; [|reflexivity].
        split; [now rewrite Hocc|].
        intros before' after' H. apply Hfront in H as (b' & -> & H).
        cbn. apply Hleft in H. lia.
      * right. split; [|now rewrite Hr].
        intros before after H. apply Hfront in H as (b' & -> & H). now apply Hnone in H.
Qed.

(** [replace_one] returns exactly when [old] occurs in [s] and [new]
    differs from [old]; it then replaces the leftmost occurrence. *)
Theorem replace_one_spec (s old new : string) :
  match replace_one s old new with
  | Ret r =>
      old <> new
      /\ exists before after,
           leftmost_occurrence old s before after /\ r = before +:+ new +:+ after
  | Raise e =>
      e = ValueError (old +:+ " not contained in " +:+ s)
      /\ (old = new \/ forall before after, s <> before +:+ old +:+ after)
  end.
Proof.
  unfold replace_one.
  destruct (String.eqb_spec (str_replace_1 old new s) s) as [Heq|Hne].
  - split; [reflexivity|].
    destruct (str_replace_1_spec old new s) as [(before & after & [Hocc _] & Hr)|[Hnone _]];
      [left | now right].
    rewrite Hr in Heq. rewrite Hocc in Heq.
    apply append_cancel_l in Heq. apply append_cancel_r in Heq. congruence.
  - destruct (str_replace_1_spec old new s) as [(before & after & Hocc & Hr)|[_ Hr]];
      [|congruence].
    split; [|eauto].
    intros ->. apply Hne. rewrite Hr. symmetry. apply Hocc.
Qed.

Lemma dict_fromkeys_from_cons {A} `{EqDecision A} (keys : list A) (x : A) (items : list A) :
  dict_fromkeys_from keys (x :: items)
  = dict_fromkeys_from (if decide (x ∈ keys) then keys else keys ++ [x]) items.
Proof. reflexivity. Qed.

Lemma dict_fromkeys_from_NoDup {A} `{EqDecision A} (items keys : list A) :
  NoDup keys -> NoDup (dict_fromkeys_from keys items).
Proof.
  revert keys. induction items as [|x items IH]; intros keys Hk; [exact Hk|].
  rewrite dict_fromkeys_from_cons. apply IH.
  destruct (decide (x ∈ keys)); [exact Hk|].
  apply list.NoDup_app. split; [exact Hk|]. split; [|apply NoDup_singleton].
  intros y Hy Hx. apply list_elem_of_singleton in Hx. congruence.
Qed.

Lemma dict_fromkeys_from_elem {A} `{EqDecision A} (items keys : list A) (y : A) :
  y ∈ dict_fromkeys_from keys items <-> y ∈ keys \/ y ∈ items.
Proof.
  revert keys. induction items as [|x items IH]; intros keys.
  - cbn. split; [auto|]. intros [H|H]; [exact H|]. now apply elem_of_nil in H.
  - rewrite dict_fromkeys_from_cons, IH, elem_of_cons.
    destruct (decide (x ∈ keys)) as [Hin|Hout].
    + split; [tauto|]. intros [H|[->|H]]; auto.
    + rewrite elem_of_app, list_elem_of_singleton. tauto.
Qed.

Lemma dict_fromkeys_from_fresh {A} `{EqDecision A} (items keys : list A) :
  NoDup (keys ++ items) -> dict_fromkeys_from keys items = keys ++ items.
Proof.
  revert keys. induction items as [|x items IH]; intros keys Hnd.
  - cbn. now rewrite app_nil_r.
  - rewrite dict_fromkeys_from_cons.
    assert (Hx : x ∉ keys).
    { apply list.NoDup_app in Hnd as (_ & Hdisj & _). intros Hin.
      apply (Hdisj x Hin). left. }
    destruct (decide (x ∈ keys)); [contradiction|].
    rewrite IH; rewrite <- app_assoc; [reflexivity | exact Hnd].
Qed.

Lemma dict_fromkeys_from_split {A} `{EqDecision A} (n : nat) :
  forall (items keys : list A),
    length items <= n ->
    dict_fromkeys_from keys items
    = keys ++ dict_fromkeys_from [] (filter (fun y => y ∉ keys) items).
Proof.
  induction n as [|n IH]; intros items keys Hlen.
  - destruct items; [|cbn in Hlen; lia]. cbn. now rewrite app_nil_r.
  - destruct items as [|x items]; [cbn; now rewrite app_nil_r|].
    cbn in Hlen. rewrite dict_fromkeys_from_cons, filter_cons.
    destruct (decide (x ∈ keys)) as [Hin|Hout].
    + destruct (decide (x ∉ keys)); [contradiction|]. apply IH. lia.
    + destruct (decide (x ∉ keys)); [|contradiction].
      rewrite dict_fromkeys_from_cons. cbn [app].
      destruct (decide (x ∈ [])) as [Hnil|_]; [now apply elem_of_nil in Hnil|].
      rewrite (IH items (keys ++ [x])) by lia.
      rewrite (IH (filter (fun y => y ∉ keys) items) [x]).
      2:{ etransitivity; [apply length_filter|]. lia. }
      rewrite <- app_assoc. f_equal. f_equal. f_equal.
      rewrite list_filter_filter. apply list_filter_iff.
      intros y. rewrite elem_of_app, !list_elem_of_singleton. tauto.
Qed.

(** [remove_duplicates] returns a sequence without repeated items that
    holds exactly the items of its input; [remove_tuple_duplicates]
    computes the same sequence. *)
Theorem remove_duplicates_set {A} `{EqDecision A} (items : list A) :
  NoDup (remove_duplicates items)
  /\ (forall x, x ∈ remove_duplicates items <-> x ∈ items)
  /\ remove_tuple_duplicates items = remove_duplicates items.
Proof.
  split; [apply dict_fromkeys_from_NoDup, NoDup_nil_2|]. split; [|reflexivity].
  intros x. unfold remove_duplicates. rewrite dict_fromkeys_from_elem.
  split; [intros [H|H]; [now apply elem_of_nil in H | exact H] | auto].
Qed.

(** [remove_duplicates] keeps the first occurrence of every item, in the
    order of the input: the head stays in front, and the rest is the result
    for the tail without the head's repetitions. *)
Theorem remove_duplicates_first_occurrence {A} `{EqDecision A} (x : A) (items : list A) :
  remove_duplicates (x :: items)
  = x :: remove_duplicates (filter (fun y => y <> x) items).
Proof.
  unfold remove_duplicates. rewrite dict_fromkeys_from_cons.
  destruct (decide (x ∈ [])) as [Hnil|_]; [now apply elem_of_nil in Hnil|].
  cbn [app]. rewrite (dict_fromkeys_from_split (length items) items [x]) by lia.
  cbn [app]. f_equal. f_equal. apply list_filter_iff.
  intros y. rewrite list_elem_of_singleton. tauto.
Qed.

(** [remove_duplicates] returns its input unchanged exactly when no item
    is repeated in it, and applying it twice is applying it once. *)
Theorem remove_duplicates_fixed_point {A} `{EqDecision A} (items : list A) :
  (remove_duplicates items = items <-> NoDup items)
  /\ remove_duplicates (remove_duplicates items) = remove_duplicates items.
Proof.
  assert (Hfix : forall l : list A, NoDup l -> remove_duplicates l = l).
  { intros l Hl. unfold remove_duplicates. now rewrite dict_fromkeys_from_fresh. }
  split.
  - split; [|apply Hfix]. intros <-. apply dict_fromkeys_from_NoDup, NoDup_nil_2.
  - apply Hfix, dict_fromkeys_from_NoDup, NoDup_nil_2.
Qed.

(** With [n >= 1] processors [default_make_jobs_count] returns between 1
    and [n] jobs: [n] itself up to 24 processors, and above 24 the half of
    [n] rounded down, which is at least 12. *)
Theorem default_make_jobs_count_bounds (n : Z) :
  (1 <= n)%Z ->
  exists jobs,
    default_make_jobs_count (Some n) = Ret jobs
    /\ (1 <= jobs <= n)%Z
    /\ (n <= 24 -> jobs = n)%Z
    /\ (24 < n -> 12 <= jobs /\ n - 1 <= 2 * jobs <= n)%Z.
Proof.
  intros Hn. unfold default_make_jobs_count.
  destruct (Z.gtb_spec n 24) as [Hbig|Hsmall]; eexists; (split; [reflexivity|]).
  - pose proof (Z.div_mod n 2 ltac:(lia)) as Hdm.
    pose proof (Z.mod_pos_bound n 2 ltac:(lia)) as Hmod. lia.
  - lia.
Qed.

(** ** Error contexts, nested *)

Lemma with_add_error_context_run (context : string) (body : M unit) (w : world) :
  with_ (add_error_context context) body w
  = match body (set_ERROR_CONTEXT (_ERROR_CONTEXT w ++ [context]) w) with
    | (w2, Raise e) => (w2, Raise e)
    | (w2, Ret _) =>
        match _ERROR_CONTEXT w2 with
        | [] => (w2, Raise (IndexError "pop from empty list"))
        | _ :: _ => (set_ERROR_CONTEXT (removelast (_ERROR_CONTEXT w2)) w2, Ret tt)
        end
    end.
Proof.
  unfold with_. cbn [cm_enter add_error_context contextmanager
                     add_error_context_generator before_yield].
  unfold ERROR_CONTEXT_append, modify.
  destruct (body _) as [w2 [[]|e]].
  - rewrite add_error_context_exit_normal. destruct (_ERROR_CONTEXT w2); reflexivity.
  - now rewrite add_error_context_exit_failure.
Qed.

(** Nested [add_error_context] scopes, outermost first in [contexts].  A
    failure of the innermost operation leaves all the [with] statements
    unchanged and no frame is popped; an operation that ends normally with
    the stack as it found it has all the frames popped again. *)
Theorem nested_error_contexts (contexts : list string) (body : M unit)
    (w w2 : world) (ob : outcome unit) :
  body (set_ERROR_CONTEXT (_ERROR_CONTEXT w ++ contexts) w) = (w2, ob) ->
  match ob with
  | Raise e => with_error_contexts contexts body w = (w2, Raise e)
  | Ret _ =>
      _ERROR_CONTEXT w2 = _ERROR_CONTEXT w ++ contexts ->
      with_error_contexts contexts body w = (set_ERROR_CONTEXT (_ERROR_CONTEXT w) w2, Ret tt)
  end.
Proof.
  revert w. induction contexts as [|c contexts IH]; intros w Hbody.
  - rewrite app_nil_r in Hbody. cbn.
    assert (Hw : set_ERROR_CONTEXT (_ERROR_CONTEXT w) w = w) by now destruct w.
    rewrite Hw in Hbody. rewrite Hbody. destruct ob as [[]|e]; [|reflexivity].
    intros Hstack. rewrite app_nil_r in Hstack. rewrite <- Hstack. now destruct w2.
  - cbn [with_error_contexts foldr]. fold (with_error_contexts contexts body).
    rewrite with_add_error_context_run.
    specialize (IH (set_ERROR_CONTEXT (_ERROR_CONTEXT w ++ [c]) w)).
    cbn [_ERROR_CONTEXT set_ERROR_CONTEXT] in IH. rewrite <- app_assoc in IH.
    specialize (IH Hbody). destruct ob as [[]|e].
    + intros Hstack. rewrite IH by exact Hstack.
      cbn. rewrite removelast_last.
      destruct (_ERROR_CONTEXT w ++ [c]) eqn:E; [now destruct (_ERROR_CONTEXT w)|].
      reflexivity.
    + now rewrite IH.
Qed.

(** ** InstallInstructions and OSInfo *)

Lemma prefix_first_characters (a b : ascii) (p q s : string) :
  a <> b -> String.prefix (String a p) s && String.prefix (String b q) s = false.
Proof.
  intros Hab. destruct s as [|c s]; [reflexivity|]. cbn.
  destruct (Ascii.ascii_dec a c) as [->|]; [|reflexivity].
  destruct (Ascii.ascii_dec b c) as [->|]; [contradiction | apply andb_false_r].
Qed.

(** [sys.platform] names at most one of the three systems. *)
Theorem OSInfo_at_most_one_platform (env : os_env) :
  IS_LINUX env && IS_FREEBSD env = false
  /\ IS_LINUX env && IS_MAC env = false
  /\ IS_FREEBSD env && IS_MAC env = false.
Proof.
  unfold IS_LINUX, IS_FREEBSD, IS_MAC, startswith.
  repeat split; apply prefix_first_characters; discriminate.
Qed.

Lemma etc_os_release_again (env env' : os_env)
    (cache cache' : option (gmap text text)) (d : gmap text text) :
  OSInfo_etc_os_release env cache = (cache', Ret d) ->
  OSInfo_etc_os_release env' cache' = (cache', Ret d).
Proof.
  unfold OSInfo_etc_os_release. destruct cache as [d0|].
  - now intros [= <- <-].
  - destruct (OSInfo___parse_etc_os_release env) as [d0|e]; [|discriminate].
    now intros [= <- <-].
Qed.

(** [OSInfo.etc_os_release] reads the file once: after a call that returned
    a dictionary, every later call returns that dictionary and does not look
    at the file, whatever it holds by then; a call that failed has cached
    nothing. *)
Theorem OSInfo_etc_os_release_cached (env : os_env)
    (cache cache' : option (gmap text text)) (o : outcome (gmap text text)) :
  OSInfo_etc_os_release env cache = (cache', o) ->
  match o with
  | Ret d =>
      cache' = Some d
      /\ forall env', OSInfo_etc_os_release env' cache' = (cache', Ret d)
  | Raise e => cache = None /\ cache' = None /\ OSInfo___parse_etc_os_release env = Raise e
  end.
Proof.
  unfold OSInfo_etc_os_release. destruct cache as [d|].
  - intros [= <- <-]. split; reflexivity.
  - destruct (OSInfo___parse_etc_os_release env) as [d|e]; intros [= <- <-]; repeat split.
Qed.

Lemma is_linux_distribution_run (env : os_env) (kind : text)
    (cache : option (gmap text text)) :
  OSInfo___is_linux_distribution env kind cache
  = if negb (IS_LINUX env) then (cache, Ret false)
    else
      match OSInfo_etc_os_release env cache with
      | (cache', Ret d) =>
          (cache', Ret (text_contains kind (dict_get d (text_of "ID"))
                        || text_contains kind (dict_get d (text_of "ID_LIKE"))))
      | (cache', Raise e) => (cache', Raise e)
      end.
Proof.
  unfold OSInfo___is_linux_distribution. destruct (negb (IS_LINUX env)); [reflexivity|].
  unfold os_bind, os_ret.
  destruct (OSInfo_etc_os_release env cache) as [cache' [d|e]] eqn:Hrel; [|reflexivity].
  destruct (text_contains kind (dict_get d (text_of "ID"))); [reflexivity|].
  now rewrite (etc_os_release_again env env _ _ _ Hrel).
Qed.

Lemma text_startswith_app (p s : text) :
  text_startswith p s = true <-> exists t, s = p ++ t.
Proof.
  revert s. induction p as [|a p IH]; intros s; cbn.
  - split; eauto.
  - destruct s as [|b s]; [split; [discriminate | intros [t Ht]; discriminate]|].
    rewrite andb_true_iff, N.eqb_eq, IH.
    split; [intros [-> [t ->]]; now exists t | intros [t [= -> ->]]; eauto].
Qed.

Lemma text_contains_occurs (sub s : text) :
  text_contains sub s = true <-> exists before after, s = before ++ sub ++ after.
Proof.
  induction s as [|c s IH].
  - cbn [text_contains]. rewrite orb_false_r, text_startswith_app. split.
    + intros [t Ht]. now exists [], t.
    + intros (before & after & H). symmetry in H.
      apply app_eq_nil in H as [-> H]. exists after. now rewrite H.
  - cbn [text_contains]. rewrite orb_true_iff, text_startswith_app, IH. split.
    + intros [[t Ht]|(before & after & ->)]; [now exists [], t | now exists (c :: before), after].
    + intros ([|c' before] & after & H).
      * left. now exists after.
      * right. injection H as -> ->. now exists before, after.
Qed.

(** The second test of [is_suse] cannot add anything: [is_suse] is the test
    for ["suse"] alone, as a name that contains ["opensuse"] contains
    ["suse"]. *)
Theorem OSInfo_is_suse_one_test (env : os_env) (cache : option (gmap text text)) :
  OSInfo_is_suse env cache = OSInfo___is_linux_distribution env (text_of "suse") cache.
Proof.
  assert (Hsub : forall s, text_contains (text_of "opensuse") s = true ->
                           text_contains (text_of "suse") s = true).
  { intros s Hs. apply text_contains_occurs in Hs as (before & after & ->).
    apply text_contains_occurs. exists (before ++ text_of "open"), after.
    now rewrite <- app_assoc. }
  unfold OSInfo_is_suse, os_bind, os_ret.
  rewrite (is_linux_distribution_run env (text_of "suse") cache).
  destruct (negb (IS_LINUX env)) eqn:Hlinux.
  - rewrite is_linux_distribution_run, Hlinux. reflexivity.
  - destruct (OSInfo_etc_os_release env cache) as [cache' [d|e]] eqn:Hrel; [|reflexivity].
    destruct (text_contains (text_of "suse") (dict_get d (text_of "ID"))
              || text_contains (text_of "suse") (dict_get d (text_of "ID_LIKE")))
      eqn:Hsuse; [reflexivity|].
    rewrite is_linux_distribution_run, Hlinux.
    rewrite (etc_os_release_again env env _ _ _ Hrel).
    apply orb_false_elim in Hsuse as [H1 H2].
    destruct (text_contains (text_of "opensuse") (dict_get d (text_of "ID"))) eqn:E1;
      [apply Hsub in E1; congruence|].
    destruct (text_contains (text_of "opensuse") (dict_get d (text_of "ID_LIKE"))) eqn:E2;
      [apply Hsub in E2; congruence|].
    reflexivity.
Qed.

(** ** Reading /etc/os-release *)

Lemma parse_os_release_lines_cons (line : text) (rest : list text) (d : gmap text text) :
  parse_os_release_lines (line :: rest) d
  = if os_release_skips line then parse_os_release_lines rest d
    else
      match text_split_once equals_sign (text_strip is_space line) with
      | Some (k, v) =>
          parse_os_release_lines rest (<[k := text_strip (N.eqb double_quote) v]> d)
      | None => Raise (ValueError "not enough values to unpack (expected 2, got 1)")
      end.
Proof.
  cbn [parse_os_release_lines]. unfold os_release_skips.
  destruct (text_strip is_space line) as [|first rest']; [reflexivity|].
  destruct (first =? hash_sign)%N; reflexivity.
Qed.

(** Blank lines and comment lines do not count, wherever they stand; and
    one line that is neither and holds no [=] makes the whole reading fail
    with [ValueError], whatever the other lines are. *)
Theorem parse_os_release_skips_and_fails (front behind : list text) (line : text)
    (d : gmap text text) :
  (os_release_skips line = true ->
   parse_os_release_lines (front ++ line :: behind) d
   = parse_os_release_lines (front ++ behind) d)
  /\ (os_release_skips line = false ->
      text_split_once equals_sign (text_strip is_space line) = None ->
      parse_os_release_lines (front ++ line :: behind) d
      = Raise (ValueError "not enough values to unpack (expected 2, got 1)")).
Proof.
  split.
  - intros Hskip. revert d. induction front as [|l front IH]; intros d.
    + cbn [app]. now rewrite parse_os_release_lines_cons, Hskip.
    + cbn [app]. rewrite !parse_os_release_lines_cons.
      destruct (os_release_skips l); [apply IH|].
      destruct (text_split_once equals_sign (text_strip is_space l)) as [[k v]|];
        [apply IH | reflexivity].
  - intros Hskip Hsplit. revert d. induction front as [|l front IH]; intros d.
    + cbn [app]. now rewrite parse_os_release_lines_cons, Hskip, Hsplit.
    + cbn [app]. rewrite parse_os_release_lines_cons.
      destruct (os_release_skips l); [apply IH|].
      destruct (text_split_once equals_sign (text_strip is_space l)) as [[k v]|];
        [apply IH | reflexivity].
Qed.

Lemma text_rstrip_snoc_strip (strip : N -> bool) (s : text) (c : N) :
  strip c = true -> text_rstrip strip (s ++ [c]) = text_rstrip strip s.
Proof.
  intros Hc. unfold text_rstrip. rewrite reverse_snoc. cbn [text_lstrip]. now rewrite Hc.
Qed.

Lemma text_rstrip_snoc_keep (strip : N -> bool) (s : text) (c : N) :
  strip c = false -> text_rstrip strip (s ++ [c]) = s ++ [c].
Proof.
  intros Hc. unfold text_rstrip. rewrite reverse_snoc. cbn [text_lstrip]. rewrite Hc.
  now rewrite reverse_cons, reverse_involutive.
Qed.

Lemma text_split_once_key (k rest : text) :
  text_contains [equals_sign] k = false ->
  text_split_once equals_sign (k ++ equals_sign :: rest) = Some (k, rest).
Proof.
  induction k as [|c k IH]; intros Hk; [reflexivity|].
  cbn [app text_split_once]. cbn [text_contains text_startswith] in Hk.
  apply orb_false_elim in Hk as [Hc Hk]. rewrite andb_true_r in Hc.
  rewrite N.eqb_sym, Hc, IH; [reflexivity | exact Hk].
Qed.

Lemma text_strip_quoted (v : text) :
  match head v with
  | Some c => negb (c =? double_quote)%N
  | None => true
  end = true ->
  match list.last v with
  | Some c => negb (c =? double_quote)%N
  | None => true
  end = true ->
  text_strip (N.eqb double_quote) (double_quote :: v ++ [double_quote]) = v.
Proof.
  intros Hfirst Hlast. destruct v as [|a v]; [reflexivity|].
  unfold text_strip. cbn [text_lstrip app]. rewrite N.eqb_refl.
  cbn in Hfirst. apply negb_true_iff in Hfirst. rewrite N.eqb_sym, Hfirst.
  change (a :: v ++ [double_quote]) with ((a :: v) ++ [double_quote]).
  rewrite text_rstrip_snoc_strip by apply N.eqb_refl.
  clear Hfirst. generalize dependent (a :: v). clear a v.
  intros v Hlast. destruct v as [|c v _] using rev_ind; [reflexivity|].
  rewrite last_snoc in Hlast. apply negb_true_iff in Hlast.
  apply text_rstrip_snoc_keep. now rewrite N.eqb_sym.
Qed.

Lemma os_release_line_parsed (entry : text * text) (rest : list text) (d : gmap text text) :
  os_release_entry_ok entry = true ->
  parse_os_release_lines (os_release_line entry :: rest) d
  = parse_os_release_lines rest (<[fst entry := snd entry]> d).
Proof.
  destruct entry as [k v]. unfold os_release_entry_ok. cbn [fst snd].
  rewrite !andb_true_iff, !negb_true_iff. intros [[[[Heq Hkey] Hfirst] Hlast] _].
  set (quoted := double_quote :: v ++ [double_quote]).
  assert (Hline : os_release_line (k, v) = (k ++ equals_sign :: quoted) ++ [line_end]).
  { unfold os_release_line, quoted. cbn [fst snd].
    rewrite <- !app_assoc. cbn [app]. now rewrite <- app_assoc. }
  assert (Hbody : k ++ equals_sign :: quoted
                  = (k ++ equals_sign :: double_quote :: v) ++ [double_quote]).
  { unfold quoted. now rewrite <- app_assoc. }
  assert (Hstrip : text_strip is_space (os_release_line (k, v)) = k ++ equals_sign :: quoted).
  { unfold text_strip. rewrite Hline.
    assert (Hleft : text_lstrip is_space ((k ++ equals_sign :: quoted) ++ [line_end])
                    = (k ++ equals_sign :: quoted) ++ [line_end]).
    { destruct k as [|c k]; [reflexivity|].
      cbn in Hkey. apply andb_true_iff in Hkey as [Hsp _]. apply negb_true_iff in Hsp.
      cbn [app text_lstrip]. now rewrite Hsp. }
    rewrite Hleft, text_rstrip_snoc_strip by reflexivity.
    rewrite Hbody. now apply text_rstrip_snoc_keep. }
  assert (Hskip : os_release_skips (os_release_line (k, v)) = false).
  { unfold os_release_skips. rewrite Hstrip. destruct k as [|c k]; [reflexivity|].
    cbn in Hkey. apply andb_true_iff in Hkey as [_ Hhash].
    now apply negb_true_iff in Hhash. }
  assert (Hvalue : text_strip (N.eqb double_quote) quoted = v)
    by now apply text_strip_quoted.
  rewrite parse_os_release_lines_cons, Hskip, Hstrip, (text_split_once_key k quoted Heq).
  now rewrite Hvalue.
Qed.

(** Writing pairs down as [key="value"] lines and reading the lines gives
    the dictionary that results from entering the pairs in order, a later
    pair for a key replacing an earlier one. *)
Theorem parse_os_release_round_trip (env : os_env) (entries : list (text * text)) :
  forallb os_release_entry_ok entries = true ->
  etc_os_release_file env = Some (map os_release_line entries) ->
  OSInfo___parse_etc_os_release env
  = Ret (fold_left (fun d entry => <[fst entry := snd entry]> d) entries ∅).
Proof.
  intros Hok Hfile. unfold OSInfo___parse_etc_os_release. rewrite Hfile. clear Hfile.
  generalize (∅ : gmap text text) as d. revert Hok.
  induction entries as [|entry entries IH]; intros Hok d; [reflexivity|].
  cbn in Hok. apply andb_true_iff in Hok as [Hentry Hrest].
  cbn [map fold_left]. rewrite os_release_line_parsed by exact Hentry.
  now apply IH.
Qed.

(** ** Install instructions *)

Lemma append_assoc_str (a b c : string) : (a +:+ b) +:+ c = a +:+ b +:+ c.
Proof. induction a as [|x a IH]; [reflexivity|]. rewrite !append_String. now rewrite IH. Qed.

Lemma append_empty_l (t : string) : "" +:+ t = t.
Proof. reflexivity. Qed.

Ltac str_norm :=
  repeat first [rewrite append_assoc_str | rewrite append_String | rewrite append_empty_l].



Lemma install_instructions_result_run (env : os_env)
    (default cheribuild_target alternative : option string) (compat_abi : bool)
    (guessed_package : bool) (install_name : string)
    (cache cache' : option (gmap text text)) (ii : InstallInstructions) :
  install_instructions_result env default cheribuild_target alternative compat_abi
    guessed_package install_name cache
  = (cache', Ret ii) ->
  exists manager,
    OSInfo_package_manager env compat_abi cache = (cache', Ret manager)
    /\ ii = {| _message :=
                 match guessed_package, given default with
                 | true, Some d => MessageText ("Run `" +:+ manager +:+ " install " +:+ d +:+ "`")
                 | true, None =>
                     MessageText ("Possibly running `" +:+ manager +:+ " install "
                                  +:+ install_name
                                  +:+ "` fixes this. Note: package name may not be correct.")
                 | false, _ =>
                     MessageText ("Run `" +:+ manager +:+ " install " +:+ install_name +:+ "`")
                 end;
               cheribuild_target := cheribuild_target;
               alternative := alternative |}.
Proof.
  unfold install_instructions_result, os_bind, os_ret.
  destruct guessed_package, (given default) as [d|];
    destruct (OSInfo_package_manager env compat_abi cache) as [c [manager|e]];
    intros [= <- <-]; eauto.
Qed.

(** What [install_instructions] returns: the target and the alternative as
    passed; a callable message only for a program on a zypper system without
    a zypper name; otherwise a text, which is a guess only when the
    platform's own name is missing and no default is given. *)
Lemma install_instructions_run (env : os_env) (name : string) (is_lib : bool)
    (default homebrew apt zypper freebsd target alt : option string)
    (compat_abi : bool) (cache cache' : option (gmap text text))
    (ii : InstallInstructions) :
  OSInfo_install_instructions env name is_lib default homebrew apt zypper freebsd
    target alt compat_abi cache
  = (cache', Ret ii) ->
  cheribuild_target ii = target
  /\ alternative ii = alt
  /\ match _message ii with
     | MessageCallable _ => is_lib = false /\ given zypper = None
     | MessageText text =>
         exists manager install_name,
           (text = "Run `" +:+ manager +:+ " install " +:+ install_name +:+ "`"
            /\ In (Some install_name)
                 [given homebrew; given freebsd; given apt; given zypper; given default])
           \/ (text = "Possibly running `" +:+ manager +:+ " install " +:+ install_name
                      +:+ "` fixes this. Note: package name may not be correct."
               /\ given default = None)
     end.
Proof.
  assert (Hresult : forall guessed install_name c,
             (guessed = false ->
              In (Some install_name)
                [given homebrew; given freebsd; given apt; given zypper; given default]) ->
             install_instructions_result env default target alt compat_abi guessed
               install_name c
             = (cache', Ret ii) ->
             cheribuild_target ii = target
             /\ alternative ii = alt
             /\ match _message ii with
                | MessageCallable _ => is_lib = false /\ given zypper = None
                | MessageText text =>
                    exists manager install_name,
                      (text = "Run `" +:+ manager +:+ " install " +:+ install_name +:+ "`"
                       /\ In (Some install_name)
                            [given homebrew; given freebsd; given apt; given zypper;
                             given default])
                      \/ (text = "Possibly running `" +:+ manager +:+ " install "
                                 +:+ install_name
                                 +:+ "` fixes this. Note: package name may not be correct."
                          /\ given default = None)
                end).
  { intros guessed install_name c Hname Hrun.
    apply install_instructions_result_run in Hrun as (manager & _ & ->).
    split; [reflexivity|]. split; [reflexivity|]. cbn [_message].
    destruct guessed.
    - destruct (given default) as [d|] eqn:Hd.
      + exists manager, d. left. split; [reflexivity|]. cbn. tauto.
      + exists manager, install_name. right. split; reflexivity.
    - exists manager, install_name. left. split; [reflexivity|]. now apply Hname. }
  unfold OSInfo_install_instructions. cbn zeta.
  destruct (if IS_MAC env then given homebrew else None) as [n|] eqn:Hmac.
  { apply Hresult. intros _. destruct (IS_MAC env); [|discriminate]. rewrite Hmac. now left. }
  destruct (if IS_FREEBSD env then given freebsd else None) as [n|] eqn:Hbsd.
  { apply Hresult. intros _. destruct (IS_FREEBSD env); [|discriminate].
    rewrite Hbsd. right. now left. }
  unfold os_bind.
  destruct (OSInfo_uses_apt env cache) as [c1 [[|]|e]]; [| |discriminate].
  { destruct (given apt) as [n|] eqn:Hapt; apply Hresult; [|discriminate].
    intros _. cbn. tauto. }
  destruct (OSInfo_uses_zypper env c1) as [c2 [[|]|e]]; [| |discriminate].
  - destruct (given zypper) as [n|] eqn:Hzyp.
    + apply Hresult. intros _. cbn. tauto.
    + destruct (negb is_lib && _) eqn:Hcnf.
      * unfold os_ret. intros [= <- <-]. cbn. repeat split.
        apply andb_true_iff in Hcnf as [Hlib _]. now apply negb_true_iff in Hlib.
      * apply Hresult. discriminate.
  - apply Hresult. discriminate.
Qed.

(** With a default name, [install_instructions] never guesses: a text
    message is [Run `<manager> install <name>`], with the manager that
    [package_manager] reports and a name that was passed for the platform or
    as the default. *)
Theorem install_instructions_default_never_guesses (env : os_env) (name : string)
    (is_lib : bool) (default homebrew apt zypper freebsd target alt : option string)
    (compat_abi : bool) (cache cache' : option (gmap text text))
    (ii : InstallInstructions) (d : string) :
  given default = Some d ->
  OSInfo_install_instructions env name is_lib default homebrew apt zypper freebsd
    target alt compat_abi cache
  = (cache', Ret ii) ->
  match _message ii with
  | MessageCallable _ => is_lib = false /\ given zypper = None
  | MessageText text =>
      exists manager install_name,
        text = "Run `" +:+ manager +:+ " install " +:+ install_name +:+ "`"
        /\ In (Some install_name)
             [given homebrew; given freebsd; given apt; given zypper; Some d]
  end.
Proof.
  intros Hd Hrun. apply install_instructions_run in Hrun as (_ & _ & Hmsg).
  destruct (_message ii) as [text|call]; [|exact Hmsg].
  destruct Hmsg as (manager & install_name & [[-> Hin]|[_ Hnone]]); [|congruence].
  rewrite Hd in Hin. eauto.
Qed.

(** [InstallInstructions.cmake()] on any system, when it returns: the
    message is [Run `<manager> install cmake`], never a guess and never the
    command-not-found callable, and the hint adds the line about the
    cheribuild target; asking for the hint changes nothing. *)
Theorem InstallInstructions_cmake_hint (env : os_env)
    (cache cache' : option (gmap text text)) (ii : InstallInstructions) (w : world) :
  InstallInstructions_cmake env cache = (cache', Ret ii) ->
  exists manager,
    ii = {| _message := MessageText ("Run `" +:+ manager +:+ " install cmake`");
            cheribuild_target := Some "cmake";
            alternative := None |}
    /\ InstallInstructions_fixit_hint ii w
       = (w, Ret ("Run `" +:+ manager +:+ " install cmake`" +:+ newline
                  +:+ "You can also try running `cheribuild.py cmake` to install locally.")).
Proof.
  intros Hrun. unfold InstallInstructions_cmake in Hrun.
  apply install_instructions_run in Hrun as (Htarget & Halt & Hmsg).
  destruct ii as [msg target alt]. cbn in *. subst target alt.
  destruct msg as [text|call]; [|destruct Hmsg; discriminate].
  destruct Hmsg as (manager & install_name & [[-> Hin]|[_ Hnone]]); [|discriminate].
  assert (install_name = "cmake") as -> by (cbn in Hin; intuition congruence).
  exists manager. split; [reflexivity|].
  unfold InstallInstructions_fixit_hint, bind, ret. cbn.
  change ("Run `" +:+ manager +:+ " install " +:+ "cmake" +:+ "`")
    with (String "R" ("un `" +:+ manager +:+ " install cmake`")).
  cbn [str_is_empty]. f_equal. f_equal. str_norm. reflexivity.
Qed.


(** [fixit_hint] of instructions with a text message: the assertion fails
    exactly when there is an alternative but neither a message nor a
    target; otherwise the hint starts with the message, and nothing else
    happens. *)
Theorem fixit_hint_of_text (text : string) (target alt : option string) (w : world) :
  exists o,
    InstallInstructions_fixit_hint
      {| _message := MessageText text; cheribuild_target := target; alternative := alt |} w
    = (w, o)
    /\ match o with
       | Raise e =>
           e = AssertionError "Can't have an alternative without a default option!"
           /\ text = "" /\ given target = None /\ given alt <> None
       | Ret hint =>
           String.prefix text hint = true
           /\ ~ (text = "" /\ given target = None /\ given alt <> None)
       end.
Proof.
  unfold InstallInstructions_fixit_hint, bind, ret, assert, raise. cbn [_message cheribuild_target alternative].
  destruct (given target) as [t|] eqn:Ht; destruct (given alt) as [a|] eqn:Ha.
  - destruct text as [|c text]; cbn [str_is_empty].
    + eexists. split; [reflexivity|]. cbn. split; [reflexivity | intros (_ & H & _); discriminate H].
    + eexists. split; [reflexivity|]. cbn.
      split; [apply prefix_app; eexists; str_norm; reflexivity | intros (H & _); discriminate H].
  - destruct text as [|c text]; cbn [str_is_empty].
    + eexists. split; [reflexivity|]. split; [reflexivity | intros (_ & H & _); discriminate H].
    + eexists. split; [reflexivity|].
      split; [apply prefix_app; eexists; str_norm; reflexivity | intros (H & _); discriminate H].
  - destruct text as [|c text]; cbn [str_is_empty negb].
    + eexists. split; [reflexivity|]. repeat split. discriminate.
    + eexists. split; [reflexivity|].
      split; [apply prefix_app; eexists; str_norm; reflexivity | intros (H & _); discriminate H].
  - eexists. split; [reflexivity|].
    split; [apply prefix_app; exists ""; clear; induction text as [|c text IH];
            [reflexivity | rewrite append_String; now rewrite <- IH]
           | intros (_ & _ & H); now apply H].
Qed.

(** [install_instructions] asks for apt first and [package_manager] for
    zypper first.  On a Linux whose os-release names both the debian and the
    suse family, the instructions therefore pair the apt name of the package
    with the zypper command. *)
Theorem install_instructions_apt_name_with_zypper (env : os_env) (name apt_name : string)
    (is_lib : bool) (default homebrew apt zypper freebsd target alt : option string)
    (compat_abi : bool) (d : gmap text text) :
  IS_LINUX env = true ->
  text_contains (text_of "debian") (dict_get d (text_of "ID"))
  || text_contains (text_of "debian") (dict_get d (text_of "ID_LIKE"))
  = true ->
  text_contains (text_of "suse") (dict_get d (text_of "ID"))
  || text_contains (text_of "suse") (dict_get d (text_of "ID_LIKE"))
  = true ->
  given apt = Some apt_name ->
  OSInfo_install_instructions env name is_lib default homebrew apt zypper freebsd
    target alt compat_abi (Some d)
  = (Some d,
     Ret {| _message := MessageText ("Run `" +:+ "zypper" +:+ " install " +:+ apt_name +:+ "`");
            cheribuild_target := target;
            alternative := alt |}).
Proof.
  intros Hlinux Hdebian Hsuse Hapt.
  assert (Hmac : IS_MAC env = false).
  { pose proof (prefix_first_characters "l" "d" "inux" "arwin" (sys_platform env)) as H.
    unfold IS_LINUX, startswith in Hlinux. unfold IS_MAC, startswith.
    rewrite Hlinux in H. apply H. discriminate. }
  assert (Hbsd : IS_FREEBSD env = false).
  { pose proof (prefix_first_characters "l" "f" "inux" "reebsd" (sys_platform env)) as H.
    unfold IS_LINUX, startswith in Hlinux. unfold IS_FREEBSD, startswith.
    rewrite Hlinux in H. apply H. discriminate. }
  assert (Hkind : forall kind,
             OSInfo___is_linux_distribution env kind (Some d)
             = (Some d, Ret (text_contains kind (dict_get d (text_of "ID"))
                             || text_contains kind (dict_get d (text_of "ID_LIKE"))))).
  { intros kind. rewrite is_linux_distribution_run, Hlinux. reflexivity. }
  assert (Hzypper : OSInfo_uses_zypper env (Some d) = (Some d, Ret true)).
  { unfold OSInfo_uses_zypper, OSInfo_is_suse, os_bind, os_ret. now rewrite Hkind, Hsuse. }
  assert (Husesapt : OSInfo_uses_apt env (Some d) = (Some d, Ret true)).
  { unfold OSInfo_uses_apt, OSInfo_is_debian, os_bind, os_ret. now rewrite Hkind, Hdebian. }
  unfold OSInfo_install_instructions. cbn zeta. rewrite Hmac, Hbsd.
  unfold os_bind at 1. rewrite Husesapt, Hapt.
  unfold install_instructions_result, os_bind, os_ret.
  assert (Hmanager : OSInfo_package_manager env compat_abi (Some d) = (Some d, Ret "zypper")).
  { unfold OSInfo_package_manager. rewrite Hmac, Hbsd, Hlinux.
    unfold os_bind, os_ret. now rewrite Hzypper. }
  destruct (given default); rewrite Hmanager; reflexivity.
Qed.

(** * The further properties on concrete runs *)

Lemma remove_prefix_round_trip_witness :
  startswith "refs/heads/" "refs/heads/main" = true
  /\ exists t,
       remove_prefix "refs/heads/main" "refs/heads/" true = Ret t
       /\ "refs/heads/" +:+ t = "refs/heads/main".
Proof.
  split; [reflexivity|].
  exact (proj2 (remove_prefix_round_trip "refs/heads/main" "refs/heads/" true) eq_refl).
Defined.

Lemma default_make_jobs_count_bounds_witness :
  (1 <= 32)%Z
  /\ exists jobs,
       default_make_jobs_count (Some 32%Z) = Ret jobs
       /\ (1 <= jobs <= 32)%Z
       /\ (32 <= 24 -> jobs = 32)%Z
       /\ (24 < 32 -> 12 <= jobs /\ 32 - 1 <= 2 * jobs <= 32)%Z.
Proof.
  assert (H : (1 <= 32)%Z) by lia.
  split; [exact H|]. exact (default_make_jobs_count_bounds 32 H).
Defined.

(** Twenty-four processors give 24 jobs, twenty-five give 12. *)
Example default_make_jobs_count_step :
  default_make_jobs_count (Some 24%Z) = Ret 24%Z
  /\ default_make_jobs_count (Some 25%Z) = Ret 12%Z.
Proof. split; reflexivity. Qed.

Lemma nested_error_contexts_witness :
  failing_step (set_ERROR_CONTEXT (_ERROR_CONTEXT initial_world ++ ["X"; "Y"]) initial_world)
  = (set_ERROR_CONTEXT ["X"; "Y"] initial_world, Raise make_failed)
  /\ with_error_contexts ["X"; "Y"] failing_step initial_world
     = (set_ERROR_CONTEXT ["X"; "Y"] initial_world, Raise make_failed)
  /\ with_error_contexts ["X"; "Y"] (ret tt) initial_world = (initial_world, Ret tt).
Proof.
  split; [reflexivity|]. split.
  - exact (nested_error_contexts ["X"; "Y"] failing_step initial_world
             (set_ERROR_CONTEXT ["X"; "Y"] initial_world) (Raise make_failed) eq_refl).
  - exact (nested_error_contexts ["X"; "Y"] (ret tt) initial_world
             (set_ERROR_CONTEXT ["X"; "Y"] initial_world) (Ret tt) eq_refl eq_refl).
Defined.

Lemma error_message_innermost_frame_witness :
  _ERROR_CONTEXT (set_ERROR_CONTEXT ["X"; "Y"] initial_world) = ["X"] ++ ["Y"]
  /\ error_message plain_coloured plain_escape_sequence ["no such file"] " " None
       (set_ERROR_CONTEXT ["X"; "Y"] initial_world)
     = (set_log [Stderr ("Error Y: no such file" +:+ newline)]
          (set_ERROR_CONTEXT ["X"; "Y"] initial_world),
        Ret tt).
Proof.
  split; [reflexivity|].
  exact (error_message_innermost_frame plain_coloured plain_escape_sequence
           ["no such file"] " " None (set_ERROR_CONTEXT ["X"; "Y"] initial_world)
           ["X"] "Y" eq_refl).
Defined.

(** The reply [No] to a prompt whose default is yes counts as yes. *)
Lemma query_yes_no_interactive_witness :
  pretend (heap sample_world 1%nat) = PyBool false
  /\ force (heap sample_world 1%nat) = PyBool false
  /\ query_yes_no plain_coloured true (Ret "No") 1 "Delete?" true true None sample_world
     = (set_log [ReadInput "Delete? [Y]/n "] sample_world, Ret true).
Proof.
  split; [reflexivity|]. split; [reflexivity|].
  exact (query_yes_no_interactive plain_coloured (Ret "No") 1 "Delete?" true true None
           sample_world eq_refl eq_refl).
Defined.

Lemma have_working_internet_connection_twice_witness :
  exists w1 b rest,
    have_working_internet_connection plain_coloured plain_escape_sequence clock_start
      Connects 1 sample_world
    = (w1, Ret b)
    /\ log w1 = log sample_world ++ SocketOpen :: rest
    /\ have_working_internet_connection plain_coloured plain_escape_sequence clock_after_59_5
         (ConnectRaises (OSError "Network is unreachable")) 1 w1
       = (w1, Ret b).
Proof.
  assert (Hlo : (2 ^ 30 <= inject_Z 7130316800000000 * 2 ^ (-22))%Q)
    by (vm_compute; discriminate).
  assert (Hhi : (inject_Z 7130316800000000 * 2 ^ (-22) + 60 < 2 ^ (30 + 1))%Q)
    by (vm_compute; reflexivity).
  assert (Hk : (6 <= 30 <= 54)%Z) by lia.
  assert (Hsoon : (inject_Z 7130317049561088 * 2 ^ (-22)
                   < inject_Z 7130316800000000 * 2 ^ (-22) + 60)%Q)
    by (vm_compute; reflexivity).
  exact (have_working_internet_connection_twice plain_coloured plain_escape_sequence
           clock_start clock_after_59_5 _ _ 30
           Connects (ConnectRaises (OSError "Network is unreachable")) 1 sample_world
           eq_refl eq_refl eq_refl eq_refl eq_refl Hk Hlo Hhi eq_refl eq_refl Hsoon).
Defined.

Lemma ThreadJoiner_enter_stops_at_started_thread_witness :
  exists w1,
    with_ (ThreadJoiner_scope plain_coloured (fun _ => false)
             (ThreadJoiner___init__ (ArgList ([0; 1] ++ 1 :: [2])%nat)))
      (ret tt) initial_world
    = (w1, Raise (RuntimeError "threads can only be started once"))
    /\ log w1 = log initial_world ++ map ThreadStart [0; 1]%nat
    /\ Forall (fun u => thread_state w1 u = Running) [0; 1]%nat
    /\ forall u, ~ In u [0; 1]%nat -> thread_state w1 u = thread_state initial_world u.
Proof.
  assert (Hnodup : NoDup [0; 1]%nat).
  { apply (bool_decide_unpack (NoDup [0; 1]%nat)). vm_compute. exact I. }
  assert (Hfresh : Forall (fun u => thread_state initial_world u = NotStarted) [0; 1]%nat)
    by (repeat constructor).
  assert (Hlisted : In 1%nat [0; 1]%nat \/ thread_state initial_world 1%nat <> NotStarted)
    by (left; right; left; reflexivity).
  exact (ThreadJoiner_enter_stops_at_started_thread plain_coloured (fun _ => false)
           [0; 1]%nat 1%nat [2]%nat (ret tt) initial_world Hnodup Hfresh Hlisted).
Defined.

Lemma ThreadJoiner_not_reusable_witness :
  exists exited,
    with_ (ThreadJoiner_scope plain_coloured (fun _ => false)
             (ThreadJoiner___init__ (ArgList [0; 1]%nat)))
      (ret tt) initial_world
    = (exited, Ret tt)
    /\ with_ (ThreadJoiner_scope plain_coloured (fun _ => false)
                (ThreadJoiner___init__ (ArgList [0; 1]%nat)))
         (ret tt) exited
       = (exited, Raise (RuntimeError "threads can only be started once")).
Proof.
  assert (Hne : [0; 1]%nat <> []) by discriminate.
  assert (Hnodup : NoDup [0; 1]%nat).
  { apply (bool_decide_unpack (NoDup [0; 1]%nat)). vm_compute. exact I. }
  assert (Hstarted :
            Forall (fun t =>
                      thread_state
                        (fst (ThreadJoiner___enter__ (ThreadJoiner___init__ (ArgList [0; 1]%nat))
                                initial_world)) t
                      <> NotStarted)
              [0; 1]%nat)
    by (repeat constructor; discriminate).
  exact (ThreadJoiner_not_reusable plain_coloured (fun _ => false) (fun _ => false)
           [0; 1]%nat (ret tt) (ret tt) initial_world _ _ (Ret tt)
           Hne Hnodup eq_refl eq_refl Hstarted).
Defined.

Lemma OSInfo_etc_os_release_cached_witness :
  OSInfo_etc_os_release (linux_env [text_of "ID=ubuntu"] "") None
  = (Some {[text_of "ID" := text_of "ubuntu"]}, Ret {[text_of "ID" := text_of "ubuntu"]})
  /\ forall env',
       OSInfo_etc_os_release env' (Some {[text_of "ID" := text_of "ubuntu"]})
       = (Some {[text_of "ID" := text_of "ubuntu"]}, Ret {[text_of "ID" := text_of "ubuntu"]}).
Proof.
  assert (Hrun : OSInfo_etc_os_release (linux_env [text_of "ID=ubuntu"] "") None
                 = (Some {[text_of "ID" := text_of "ubuntu"]},
                    Ret {[text_of "ID" := text_of "ubuntu"]})) by reflexivity.
  split; [exact Hrun|].
  exact (proj2 (OSInfo_etc_os_release_cached (linux_env [text_of "ID=ubuntu"] "") None _ _
                  Hrun)).
Defined.

(** A comment line, and a line that holds nothing but two ideographic
    spaces (U+3000), are skipped; a line without [=] fails. *)
Lemma parse_os_release_skips_and_fails_witness :
  os_release_skips (text_of "  # a comment") = true
  /\ parse_os_release_lines
       ([text_of "ID=ubuntu"] ++ text_of "  # a comment" :: [text_of "ID_LIKE=debian"]) ∅
     = parse_os_release_lines ([text_of "ID=ubuntu"] ++ [text_of "ID_LIKE=debian"]) ∅
  /\ os_release_skips [12288; 12288; line_end]%N = true
  /\ parse_os_release_lines
       ([text_of "ID=ubuntu"] ++ [12288; 12288; line_end]%N :: [text_of "ID_LIKE=debian"]) ∅
     = parse_os_release_lines ([text_of "ID=ubuntu"] ++ [text_of "ID_LIKE=debian"]) ∅
  /\ os_release_skips (text_of "ubuntu") = false
  /\ text_split_once equals_sign (text_strip is_space (text_of "ubuntu")) = None
  /\ parse_os_release_lines
       ([text_of "ID=ubuntu"] ++ text_of "ubuntu" :: [text_of "ID_LIKE=debian"]) ∅
     = Raise (ValueError "not enough values to unpack (expected 2, got 1)").
Proof.
  split; [reflexivity|]. split.
  { exact (proj1 (parse_os_release_skips_and_fails [text_of "ID=ubuntu"]
                    [text_of "ID_LIKE=debian"] (text_of "  # a comment") ∅) eq_refl). }
  split; [reflexivity|]. split.
  { exact (proj1 (parse_os_release_skips_and_fails [text_of "ID=ubuntu"]
                    [text_of "ID_LIKE=debian"] [12288; 12288; line_end]%N ∅) eq_refl). }
  split; [reflexivity|]. split; [reflexivity|].
  exact (proj2 (parse_os_release_skips_and_fails [text_of "ID=ubuntu"]
                  [text_of "ID_LIKE=debian"] (text_of "ubuntu") ∅) eq_refl eq_refl).
Defined.

(** Three pairs, one with a value that ends in the letter a with a grave
    accent (U+00E0), and the key [ID] twice. *)
Lemma parse_os_release_round_trip_witness :
  forallb os_release_entry_ok
    [(text_of "ID", text_of "ubuntu"); (text_of "NAME", text_of "Voil" ++ [224%N]);
     (text_of "ID", text_of "debian")]
  = true
  /\ OSInfo___parse_etc_os_release
       (linux_env (map os_release_line
                     [(text_of "ID", text_of "ubuntu");
                      (text_of "NAME", text_of "Voil" ++ [224%N]);
                      (text_of "ID", text_of "debian")]) "")
     = Ret (fold_left (fun d entry => <[fst entry := snd entry]> d)
              [(text_of "ID", text_of "ubuntu"); (text_of "NAME", text_of "Voil" ++ [224%N]);
               (text_of "ID", text_of "debian")] ∅).
Proof.
  split; [reflexivity|].
  exact (parse_os_release_round_trip
           (linux_env (map os_release_line
                         [(text_of "ID", text_of "ubuntu");
                          (text_of "NAME", text_of "Voil" ++ [224%N]);
                          (text_of "ID", text_of "debian")]) "")
           [(text_of "ID", text_of "ubuntu"); (text_of "NAME", text_of "Voil" ++ [224%N]);
            (text_of "ID", text_of "debian")]
           eq_refl eq_refl).
Defined.

Lemma install_instructions_default_never_guesses_witness :
  given (Some "ninja-build") = Some "ninja-build"
  /\ exists manager install_name,
       "Run `<system package manager> install ninja-build`"
       = "Run `" +:+ manager +:+ " install " +:+ install_name +:+ "`"
       /\ In (Some install_name)
            [given None; given None; given None; given None; Some "ninja-build"].
Proof.
  split; [reflexivity|].
  exact (install_instructions_default_never_guesses (linux_env [] "") "ninja" false
           (Some "ninja-build") None None None None None None false None (Some ∅)
           {| _message := MessageText "Run `<system package manager> install ninja-build`";
              cheribuild_target := None;
              alternative := None |}
           "ninja-build" eq_refl eq_refl).
Defined.

Lemma InstallInstructions_cmake_hint_witness :
  InstallInstructions_cmake mac_env None
  = (None,
     Ret {| _message := MessageText "Run `brew install cmake`";
            cheribuild_target := Some "cmake";
            alternative := None |})
  /\ exists manager,
       {| _message := MessageText "Run `brew install cmake`";
          cheribuild_target := Some "cmake";
          alternative := None |}
       = {| _message := MessageText ("Run `" +:+ manager +:+ " install cmake`");
            cheribuild_target := Some "cmake";
            alternative := None |}
       /\ InstallInstructions_fixit_hint
            {| _message := MessageText "Run `brew install cmake`";
               cheribuild_target := Some "cmake";
               alternative := None |}
            initial_world
          = (initial_world,
             Ret ("Run `" +:+ manager +:+ " install cmake`" +:+ newline
                  +:+ "You can also try running `cheribuild.py cmake` to install locally.")).
Proof.
  split; [reflexivity|].
  exact (InstallInstructions_cmake_hint mac_env None None _ initial_world eq_refl).
Defined.

Lemma install_instructions_apt_name_with_zypper_witness :
  IS_LINUX (linux_env [] "") = true
  /\ OSInfo_install_instructions (linux_env [] "") "ssl" true None None (Some "libssl-dev")
       (Some "libopenssl-devel") None None None false
       (Some {[text_of "ID_LIKE" := text_of "suse debian"]})
     = (Some {[text_of "ID_LIKE" := text_of "suse debian"]},
        Ret {| _message := MessageText ("Run `" +:+ "zypper" +:+ " install " +:+ "libssl-dev"
                                        +:+ "`");
               cheribuild_target := None;
               alternative := None |}).
Proof.
  split; [reflexivity|].
  exact (install_instructions_apt_name_with_zypper (linux_env [] "") "ssl" "libssl-dev" true
           None None (Some "libssl-dev") (Some "libopenssl-devel") None None None false
           {[text_of "ID_LIKE" := text_of "suse debian"]} eq_refl eq_refl eq_refl eq_refl).
Defined.

